(** * Optimistic mutation cache of the medication tracker

    A shallow embedding of [src/hooks/useMedications.ts]: the query hook
    [useGetMedications] and the mutation hook [useAddMedication], together
    with the part of the query client the two hooks call
    ([getQueryData], [setQueryData], [cancelQueries], [invalidateQueries])
    and the life cycle that the mutation runner gives to [onMutate],
    [mutationFn], [onError] and [onSettled].

    The hooks run on one cooperative thread.  Every [await] of the source
    is an explicit point at which other flows may run; what runs there is
    a parameter of the embedded function. *)

From Stdlib Require Import ZArith Sorted.
From stdpp Require Import gmap strings list fin_maps.

Local Open Scope Z_scope.

(** ** Records of [src/types.ts] *)

Module Medication.
Record t : Type := mk {
  id : string;
  created_at : string;
  user_id : string;
  name : string;
  dosage : string;
  frequency : string
}.
End Medication.

(** [Omit<Medication, 'id' | 'created_at' | 'user_id'>] *)
Module NewMedication.
Record t : Type := mk {
  name : string;
  dosage : string;
  frequency : string
}.
End NewMedication.

(** A thrown value: [new Error(message)] of the hooks themselves, or the
    error object of the remote store client. *)
Inductive Error : Type :=
| JsError (message : string)
| RemoteError (message : string).

Inductive Result (A : Type) : Type :=
| Ok (a : A)
| Err (e : Error).
Arguments Ok {A} a.
Arguments Err {A} e.

(** The [{ data, error }] answer of the remote store client: exactly one
    of the two is set. *)
Inductive Response (A : Type) : Type :=
| Data (data : A)
| Failure (message : string).
Arguments Data {A} data.
Arguments Failure {A} message.

(** ** Query keys

    [["medications", currentUserId]] where [currentUserId = user?.id] is a
    string or [undefined]. *)

Abbreviation QueryKey := (string * option string)%type.

Definition medicationsKey (currentUserId : option string) : QueryKey :=
  ("medications", currentUserId).

(** JavaScript's [!x] for [x : string | undefined]: [undefined] and the
    empty string are falsy. *)
Definition falsy (x : option string) : bool :=
  match x with
  | None => true
  | Some s => if decide (s = "") then true else false
  end.

(** ** The query client

    The hooks import their cache from a client library, which is not part
    of the repository.  Its operations are modelled below as sections 4.1,
    4.2 and 5 of the specification describe the cache store and the query
    controller.

    One entry per query key: the cached collection ([None] is the
    client's [undefined], the absent collection), the time of the last
    write, the invalidation mark and the token of the fetch in flight. *)

Record Query : Type := mkQuery {
  q_data : option (list Medication.t);
  q_dataUpdatedAt : Z;
  q_isInvalidated : bool;
  q_fetch : option nat
}.

(** Calls made on the query client and on the remote store, and fetch
    completions handled by the client, in the order they happen. *)
Inductive Call : Type :=
| CancelQueries (k : QueryKey)
| GetQueryData (k : QueryKey)
| SetQueryData (k : QueryKey) (data : option (list Medication.t))
| InvalidateQueries (k : QueryKey)
| RemoteInsert (row : NewMedication.t) (user_id : string)
| RemoteSelect (user_id : string)
| FetchCompleted (k : QueryKey) (token : nat) (applied : bool).

Record World : Type := mkWorld {
  cache : gmap QueryKey Query;
  fetchSeq : nat;
  now : Z;
  trace : list Call
}.

Definition with_cache (c : gmap QueryKey Query) (w : World) : World :=
  {| cache := c; fetchSeq := fetchSeq w; now := now w; trace := trace w |}.

(** State passing with the call log. *)
Definition M (A : Type) : Type := World -> A * World.

#[global] Instance M_ret : MRet M := fun A a w => (a, w).
#[global] Instance M_bind : MBind M :=
  fun A B f m w => f (fst (m w)) (snd (m w)).

Definition exec {A} (m : M A) (w : World) : World := snd (m w).
Definition eval {A} (m : M A) (w : World) : A := fst (m w).

Definition log (c : Call) : M unit :=
  fun w => (tt, {| cache := cache w; fetchSeq := fetchSeq w; now := now w;
                   trace := trace w ++ [c] |}).

Definition gets {A} (f : World -> A) : M A := fun w => (f w, w).

Definition modify_cache (f : gmap QueryKey Query -> gmap QueryKey Query) : M unit :=
  fun w => (tt, with_cache (f (cache w)) w).

(** An [await]: the flow is suspended and [others] run before it resumes. *)
Definition await (others : M unit) : M unit := others.

Definition dataOf (k : QueryKey) (w : World) : option (list Medication.t) :=
  q ← cache w !! k; q_data q.

(** Modelled from the spec: [get] of section 4.1,
    [queryClient.getQueryData(key)]. *)
Definition getQueryData (k : QueryKey) : M (option (list Medication.t)) :=
  log (GetQueryData k);;
  gets (dataOf k).

(** The second argument of [setQueryData]: a value or a function of the
    old value. *)
Inductive Updater : Type :=
| Value (v : option (list Medication.t))
| Updater_fn (f : option (list Medication.t) -> option (list Medication.t)).

Definition functionalUpdate (u : Updater) (prev : option (list Medication.t))
  : option (list Medication.t) :=
  match u with
  | Value v => v
  | Updater_fn f => f prev
  end.

(** Modelled from the spec: [set] of section 4.1,
    [queryClient.setQueryData(key, updater)].  The new collection replaces
    the cached one as a whole, is stamped with the current time and clears
    the invalidation mark.  [undefined] is not a collection: the client
    ignores such a write and keeps what it has. *)
Definition setQueryData (k : QueryKey) (u : Updater) : M unit :=
  prev ← gets (dataOf k);
  let data := functionalUpdate u prev in
  log (SetQueryData k data);;
  match data with
  | None => mret tt
  | Some d =>
      t ← gets now;
      modify_cache (fun c =>
        <[k := {| q_data := Some d; q_dataUpdatedAt := t;
                  q_isInvalidated := false;
                  q_fetch := q ← c !! k; q_fetch q |}]> c)
  end.

Definition drop_fetch (q : Query) : Query :=
  {| q_data := q_data q; q_dataUpdatedAt := q_dataUpdatedAt q;
     q_isInvalidated := q_isInvalidated q; q_fetch := None |}.

Definition mark_invalidated (q : Query) : Query :=
  {| q_data := q_data q; q_dataUpdatedAt := q_dataUpdatedAt q;
     q_isInvalidated := true; q_fetch := q_fetch q |}.

(** Modelled from the spec: [cancelInFlight] of section 4.1,
    [queryClient.cancelQueries({ queryKey })].  The fetch in flight for the
    key, if any, is dropped; its completion will find no matching token. *)
Definition cancelQueries (k : QueryKey) : M unit :=
  log (CancelQueries k);;
  modify_cache (alter drop_fetch k).

(** Modelled from the spec: [invalidate] of section 4.1,
    [queryClient.invalidateQueries({ queryKey })].  The entry is marked;
    its data stay. *)
Definition invalidateQueries (k : QueryKey) : M unit :=
  log (InvalidateQueries k);;
  modify_cache (alter mark_invalidated k).

(** ** [useAddMedication] *)

(** The object returned by [onMutate] for [onError] and [onSettled]. *)
Record Context : Type := mkContext {
  previousMedications : option (list Medication.t)
}.

(** What [uuidv4()] and [new Date().toISOString()] return when the
    updater of [onMutate] runs. *)
Record Entropy : Type := mkEntropy {
  uuid : string;
  isoNow : string
}.

(** The narrowing done by [if (!currentUserId)]. *)
Definition truthy (currentUserId : option string) : option string :=
  if falsy currentUserId then None else currentUserId.

Definition tempMed (newMed : NewMedication.t) (e : Entropy) (currentUserId : string)
  : Medication.t :=
  {| Medication.name := NewMedication.name newMed;
     Medication.dosage := NewMedication.dosage newMed;
     Medication.frequency := NewMedication.frequency newMed;
     Medication.id := "optimistic-" +:+ uuid e;
     Medication.created_at := isoNow e;
     Medication.user_id := currentUserId |}.

(** The options object a hook hands to [useMutation]. *)
Module MutationOptions.
Record t : Type := mk {
  mutationFn : NewMedication.t -> Response Medication.t -> M unit ->
               M (Result Medication.t);
  onMutate : NewMedication.t -> Entropy -> M unit -> M (option Context);
  onError : Error -> NewMedication.t -> option Context -> M unit;
  onSettled : M unit
}.
End MutationOptions.

(** [mutationFn]; [others] run while the insert is awaited. *)
Definition mutationFn (currentUserId : option string) (newMed : NewMedication.t)
    (insert : Response Medication.t) (others : M unit)
  : M (Result Medication.t) :=
  match truthy currentUserId with
  | None => mret (Err (JsError "User not authenticated."))
  | Some user =>
      log (RemoteInsert newMed user);;
      await others;;
      match insert with
      | Failure message => mret (Err (RemoteError message))
      | Data data => mret (Ok data)
      end
  end.

(** [onMutate]; [others] run while [cancelQueries] is awaited.  Nothing is
    awaited between the snapshot and the write. *)
Definition onMutate (currentUserId : option string) (newMed : NewMedication.t)
    (e : Entropy) (others : M unit)
  : M (option Context) :=
  match truthy currentUserId with
  | None => mret None
  | Some user =>
      cancelQueries (medicationsKey currentUserId);;
      await others;;
      previousMedications ← getQueryData (medicationsKey currentUserId);
      setQueryData (medicationsKey currentUserId)
        (Updater_fn (fun old =>
           let tempMed := tempMed newMed e user in
           Some (match old with
                 | Some old => old ++ [tempMed]
                 | None => [tempMed]
                 end)));;
      mret (Some {| previousMedications := previousMedications |})
  end.

Definition onError (currentUserId : option string) (err : Error)
    (newMed : NewMedication.t) (context : option Context)
  : M unit :=
  setQueryData (medicationsKey currentUserId)
    (Value (c ← context; previousMedications c)).

Definition onSettled (currentUserId : option string) : M unit :=
  invalidateQueries (medicationsKey currentUserId).

(** The hook, for the [user?.id] that [useAuth] gave at render. *)
Definition useAddMedication (currentUserId : option string) : MutationOptions.t :=
  {| MutationOptions.mutationFn := mutationFn currentUserId;
     MutationOptions.onMutate := onMutate currentUserId;
     MutationOptions.onError := onError currentUserId;
     MutationOptions.onSettled := onSettled currentUserId |}.

(** Modelled from the spec: steps 6 to 8 of the protocol of section 4.3,
    as the mutation runner of the client library performs them.  From the
    outcome of [mutationFn] on: [onError] on failure only, [onSettled]
    always, and the outcome is handed back to the caller. *)
Definition settle (options : MutationOptions.t) (newMed : NewMedication.t)
    (context : option Context) (r : Result Medication.t)
  : M (Result Medication.t) :=
  match r with
  | Ok data => MutationOptions.onSettled options;; mret (Ok data)
  | Err err =>
      MutationOptions.onError options err newMed context;;
      MutationOptions.onSettled options;;
      mret (Err err)
  end.

(** Modelled from the spec: the strictly ordered protocol of section 4.3,
    as the mutation runner of the client library performs it.  One call of
    [mutate(newMed)]: [onMutate], then [mutationFn], then the settle
    callbacks. *)
Definition mutate (options : MutationOptions.t) (newMed : NewMedication.t)
    (e : Entropy) (insert : Response Medication.t)
    (during_cancel during_insert : M unit)
  : M (Result Medication.t) :=
  context ← MutationOptions.onMutate options newMed e during_cancel;
  r ← MutationOptions.mutationFn options newMed insert during_insert;
  settle options newMed context r.

(** ** [useGetMedications] *)

(** The options object a hook hands to [useQuery]; [queryFn] is the part
    of the query function up to its [await]. *)
Module QueryOptions.
Record t : Type := mk {
  queryKey : QueryKey;
  queryFn : M (Result unit);
  enabled : bool;
  staleTime : Z
}.
End QueryOptions.

(** [queryFn] up to its [await]: the guard and the select sent to the
    remote store. *)
Definition queryFn (currentUserId : option string) : M (Result unit) :=
  match truthy currentUserId with
  | None => mret (Err (JsError "User not authenticated."))
  | Some user => log (RemoteSelect user);; mret (Ok tt)
  end.

(** [queryFn] after its [await]: the answer is thrown or returned. *)
Definition queryFn_resume (answer : Response (list Medication.t))
  : Result (list Medication.t) :=
  match answer with
  | Failure message => Err (RemoteError message)
  | Data data => Ok data
  end.

Definition staleTime : Z := 5 * 60 * 1000.

(** The hook, for the [user?.id] and the [loading] flag that [useAuth] gave
    at render. *)
Definition useGetMedications (currentUserId : option string) (authLoading : bool)
  : QueryOptions.t :=
  {| QueryOptions.queryKey := medicationsKey currentUserId;
     QueryOptions.queryFn := queryFn currentUserId;
     QueryOptions.enabled := negb (falsy currentUserId) && negb authLoading;
     QueryOptions.staleTime := staleTime |}.

(** Modelled from the spec: the freshness window of section 4.2.  An entry
    is stale when it has no collection, when it is invalidated, or when
    [staleTime] has passed since its last write. *)
Definition isStale (staleTime : Z) (q : Query) (t : Z) : bool :=
  match q_data q with
  | None => true
  | Some _ => q_isInvalidated q || bool_decide (q_dataUpdatedAt q + staleTime <= t)
  end.

Definition set_fetch (k : QueryKey) (f : option nat) : M unit :=
  modify_cache (fun c =>
    match c !! k with
    | Some q =>
        <[k := {| q_data := q_data q; q_dataUpdatedAt := q_dataUpdatedAt q;
                  q_isInvalidated := q_isInvalidated q; q_fetch := f |}]> c
    | None =>
        <[k := {| q_data := None; q_dataUpdatedAt := 0;
                  q_isInvalidated := false; q_fetch := f |}]> c
    end).

(** Modelled from the spec: the transition to [fetching] of section 4.2.
    The fetch gets a fresh token and the query function is called; a query
    function that throws before its [await] ends the fetch at once. *)
Definition startFetch (options : QueryOptions.t) : M unit :=
  let k := QueryOptions.queryKey options in
  token ← gets fetchSeq;
  (fun w => (tt, {| cache := cache w; fetchSeq := S token; now := now w;
                    trace := trace w |}));;
  set_fetch k (Some token);;
  r ← QueryOptions.queryFn options;
  match r with
  | Ok _ => mret tt
  | Err _ => set_fetch k None
  end.

Inductive LoadStatus : Type :=
| NotReady
| Fetching
| Fresh.

(** Modelled from the spec: [load] of section 4.2.  A read through the
    hook: no fetch when the query is disabled (the status is "not ready"),
    when a fetch is already in flight, or when the cached collection is
    fresh. *)
Definition load (options : QueryOptions.t) : M LoadStatus :=
  let k := QueryOptions.queryKey options in
  if QueryOptions.enabled options then
    q ← gets (fun w => cache w !! k);
    t ← gets now;
    match q with
    | Some q =>
        match q_fetch q with
        | Some _ => mret Fetching
        | None =>
            if isStale (QueryOptions.staleTime options) q t
            then startFetch options;; mret Fetching
            else mret Fresh
        end
    | None => startFetch options;; mret Fetching
    end
  else mret NotReady.

(** Modelled from the spec: fetch completion of sections 4.2 and 5.  The
    answer of the remote store reaches the client.  It is applied only
    when its token is still the one in flight for the key: the completion
    of a cancelled fetch changes nothing.  On success the rows replace the
    cached collection; on failure the cached collection stays. *)
Definition fetchCompleted (k : QueryKey) (token : nat)
    (answer : Response (list Medication.t))
  : M unit :=
  q ← gets (fun w => cache w !! k);
  match q with
  | Some q =>
      if decide (q_fetch q = Some token) then
        log (FetchCompleted k token true);;
        match queryFn_resume answer with
        | Ok rows =>
            t ← gets now;
            modify_cache (<[k := {| q_data := Some rows; q_dataUpdatedAt := t;
                                    q_isInvalidated := false; q_fetch := None |}]>)
        | Err _ => set_fetch k None
        end
      else log (FetchCompleted k token false)
  | None => log (FetchCompleted k token false)
  end.

(** ** Other flows

    What may run while a mutation is suspended: time passes, a component
    reads through [useGetMedications], a fetch completes. *)
Inductive Event : Type :=
| Tick (dt : N)
| Load (currentUserId : option string) (authLoading : bool)
| Completion (k : QueryKey) (token : nat) (answer : Response (list Medication.t)).

Definition tick (dt : N) : M unit :=
  fun w => (tt, {| cache := cache w; fetchSeq := fetchSeq w;
                   now := now w + Z.of_N dt; trace := trace w |}).

Definition step (ev : Event) : M unit :=
  match ev with
  | Tick dt => tick dt
  | Load currentUserId authLoading =>
      load (useGetMedications currentUserId authLoading);; mret tt
  | Completion k token answer => fetchCompleted k token answer
  end.

Fixpoint run (evs : list Event) : M unit :=
  match evs with
  | [] => mret tt
  | ev :: evs => step ev;; run evs
  end.

(** The state in which [onMutate] takes its snapshot. *)
Definition at_snapshot (currentUserId : option string) (others : M unit)
    (w : World) : World :=
  exec (cancelQueries (medicationsKey currentUserId);; await others) w.

Definition apply_placeholder (old : option (list Medication.t))
    (placeholder : Medication.t) : list Medication.t :=
  match old with
  | Some old => old ++ [placeholder]
  | None => [placeholder]
  end.

(** What [mutationFn] throws or returns once the insert is answered. *)
Definition outcome (insert : Response Medication.t) : Result Medication.t :=
  match insert with
  | Failure message => Err (RemoteError message)
  | Data data => Ok data
  end.

(** The order of a collection: by [created_at], for an order [earlier_eq]
    of the timestamps. *)
Definition by_created_at (earlier_eq : string -> string -> Prop)
    (a b : Medication.t) : Prop :=
  earlier_eq (Medication.created_at a) (Medication.created_at b).

(** ** Sample data *)

Definition aspirin : NewMedication.t :=
  {| NewMedication.name := "Aspirin"; NewMedication.dosage := "100mg";
     NewMedication.frequency := "Once daily" |}.

Definition ibuprofen : NewMedication.t :=
  {| NewMedication.name := "Ibuprofen"; NewMedication.dosage := "200mg";
     NewMedication.frequency := "Twice a day" |}.

Definition entropy1 : Entropy :=
  {| uuid := "6f1c7c4e-0b7e-4c59-9a53-0d1e2f3a4b5c";
     isoNow := "2024-05-01T10:00:00.000Z" |}.

Definition entropy2 : Entropy :=
  {| uuid := "a3b9d2f0-58c1-4e07-8f6d-9c0b1a2e3d4f";
     isoNow := "2024-05-01T10:00:05.000Z" |}.

(** A client that has fetched nothing yet. *)
Definition fresh_client : World :=
  {| cache := ∅; fetchSeq := 0; now := 1714557600000; trace := [] |}.

Definition server_row : Medication.t :=
  {| Medication.id := "0b5e0c1a-7d43-4f0e-b0a7-2f3c4d5e6f70";
     Medication.created_at := "2024-04-30T08:00:00.000Z";
     Medication.user_id := "u1";
     Medication.name := "Metformin"; Medication.dosage := "500mg";
     Medication.frequency := "Twice a day" |}.

(** A client holding one fetched record of user [u1]. *)
Definition fetched_client : World :=
  {| cache := {[ medicationsKey (Some "u1") :=
                   {| q_data := Some [server_row];
                      q_dataUpdatedAt := 1714557000000;
                      q_isInvalidated := false; q_fetch := None |} ]};
     fetchSeq := 1; now := 1714557600000; trace := [] |}.

Definition string_le (a b : string) : Prop := String.leb a b = true.


(** ** Which entry a computation works on *)

(** The query key a call is made on; the calls on the remote store have
    none. *)
Definition call_key (c : Call) : option QueryKey :=
  match c with
  | CancelQueries k | GetQueryData k | SetQueryData k _
  | InvalidateQueries k | FetchCompleted k _ _ => Some k
  | RemoteInsert _ _ | RemoteSelect _ => None
  end.

Definition on_key (k : QueryKey) (c : Call) : Prop :=
  match call_key c with
  | Some k' => k' = k
  | None => True
  end.

(** [m] is confined to [k]: it leaves every other entry of the cache as it
    is, and every call it makes on the query client is on [k]. *)
Definition confined (k : QueryKey) {A} (m : M A) : Prop :=
  forall w,
    (forall k', k' ≠ k -> cache (exec m w) !! k' = cache w !! k') /\
    exists calls, trace (exec m w) = trace w ++ calls /\ Forall (on_key k) calls.

(** A client holding the fetched collections of two users. *)
Definition other_owner_client : World :=
  {| cache := {[ medicationsKey (Some "u1") :=
                   {| q_data := Some [server_row];
                      q_dataUpdatedAt := 1714557000000;
                      q_isInvalidated := false; q_fetch := None |};
                 medicationsKey (Some "u2") :=
                   {| q_data := Some [];
                      q_dataUpdatedAt := 1714557000000;
                      q_isInvalidated := false; q_fetch := Some 0%nat |} ]};
     fetchSeq := 1; now := 1714557600000; trace := [] |}.

(** ** Reads over time *)

(** The time that passes over a list of events, in milliseconds. *)
Fixpoint elapsed (evs : list Event) : Z :=
  match evs with
  | [] => 0
  | Tick dt :: evs => Z.of_N dt + elapsed evs
  | _ :: evs => elapsed evs
  end.

(** The number of selects sent to the remote store. *)
Fixpoint selects (calls : list Call) : nat :=
  match calls with
  | [] => 0
  | RemoteSelect _ :: calls => S (selects calls)
  | _ :: calls => selects calls
  end.

(** Time passing, or a read through the hook by the given user. *)
Definition read_by (currentUserId : option string) (ev : Event) : Prop :=
  match ev with
  | Tick _ => True
  | Load currentUserId' _ => currentUserId' = currentUserId
  | Completion _ _ _ => False
  end.

(** Five reads by user [u1] spread over four and a half minutes. *)
Definition five_reads : list Event :=
  [Load (Some "u1") false; Tick 60000; Load (Some "u1") false;
   Tick 90000; Load (Some "u1") true; Load (Some "u1") false;
   Tick 120000; Load (Some "u1") false].

(** ** Fetches in flight when a mutation begins *)

(** Tokens are handed out in increasing order: a completion on [k] whose
    token is below the counter of [w] belongs to a fetch that was started
    before [w].  Events that are not completions on [k] are unrestricted. *)
Definition started_before (w : World) (k : QueryKey) (ev : Event) : Prop :=
  match ev with
  | Completion k' token _ => k' = k -> (token < fetchSeq w)%nat
  | _ => True
  end.

(** The call is a fetch completion that was applied to the entry of [k]. *)
Definition applied_on (k : QueryKey) (c : Call) : Prop :=
  exists token, c = FetchCompleted k token true.

(** The entry of [k] holds [data], and a fetch in flight on it, if any, was
    started at counter [n] or later. *)
Definition shielded (n : nat) (k : QueryKey)
    (data : option (list Medication.t)) (w : World) : Prop :=
  (n <= fetchSeq w)%nat /\
  dataOf k w = data /\
  forall q token, cache w !! k = Some q -> q_fetch q = Some token -> (n <= token)%nat.

(** A client with a fetch in flight for user [u1], token 0. *)
Definition fetching_client : World :=
  {| cache := {[ medicationsKey (Some "u1") :=
                   {| q_data := Some [server_row];
                      q_dataUpdatedAt := 1714557000000;
                      q_isInvalidated := true; q_fetch := Some 0%nat |} ]};
     fetchSeq := 1; now := 1714557600000; trace := [] |}.

(** ** A run of mutations, one after the other *)

(** Calls of [mutate], each settled before the next one starts. *)
Fixpoint mutations (currentUserId : option string)
    (ms : list (NewMedication.t * Entropy * Response Medication.t))
  : M unit :=
  match ms with
  | [] => mret tt
  | (newMed, e, insert) :: ms =>
      mutate (useAddMedication currentUserId) newMed e insert (mret tt) (mret tt);;
      mutations currentUserId ms
  end.

(** The placeholders of the mutations whose insert succeeded, in call
    order. *)
Fixpoint confirmed_placeholders (user : string)
    (ms : list (NewMedication.t * Entropy * Response Medication.t))
  : list Medication.t :=
  match ms with
  | [] => []
  | (newMed, e, Data _) :: ms => tempMed newMed e user :: confirmed_placeholders user ms
  | (_, _, Failure _) :: ms => confirmed_placeholders user ms
  end.

(** The rows sent to the remote store for insertion, with their
    [user_id]. *)
Fixpoint inserts (calls : list Call) : list (NewMedication.t * string) :=
  match calls with
  | [] => []
  | RemoteInsert row user :: calls => (row, user) :: inserts calls
  | _ :: calls => inserts calls
  end.

(** The users for whom a select was sent to the remote store. *)
Fixpoint selected_users (calls : list Call) : list string :=
  match calls with
  | [] => []
  | RemoteSelect user :: calls => user :: selected_users calls
  | _ :: calls => selected_users calls
  end.

(** Every record of the collection belongs to [user]. *)
Definition owned_by (user : string) (l : list Medication.t) : Prop :=
  Forall (fun m => Medication.user_id m = user) l.

(** A completion on [k] that carries rows carries rows of [user] only. *)
Definition answers_owned_by (user : string) (k : QueryKey) (ev : Event) : Prop :=
  match ev with
  | Completion k' _ (Data rows) => k' = k -> owned_by user rows
  | _ => True
  end.

(** ** The remote store client ([src/lib/supabase.ts]) *)



(** ** [useAuth] ([src/hooks/useAuth.ts]) *)

(** The user object of the identity provider; the hooks read its [id]. *)
Module User.
Record t : Type := mk {
  id : string
}.
End User.

Module Session.
Record t : Type := mk {
  user : User.t
}.
End Session.

(** [AuthState] of [src/types.ts]. *)
Module AuthState.
Record t : Type := mk {
  user : option User.t;
  loading : bool
}.
End AuthState.

Module useAuth.

(** A mounted hook: its two pieces of state, and whether its listener is
    still subscribed. *)
Record Hook : Type := mkHook {
  state : AuthState.t;
  subscribed : bool
}.

(** [useState(null)], [useState(true)], and the subscription made by the
    effect. *)
Definition mount : Hook :=
  {| state := {| AuthState.user := None; AuthState.loading := true |};
     subscribed := true |}.

(** What reaches the hook: the promise of [getSession()] resolves, the
    identity provider calls the listener, the effect is cleaned up. *)
Inductive Event : Type :=
| SessionResolved (session : option Session.t)
| AuthStateChange (_event : string) (session : option Session.t)
| Unmount.

(** [setUser(session?.user || null); setLoading(false)], the body of both
    callbacks. *)
Definition setSession (session : option Session.t) (h : Hook) : Hook :=
  {| state := {| AuthState.user := Session.user <$> session;
                 AuthState.loading := false |};
     subscribed := subscribed h |}.

(** The listener is called only while it is subscribed;
    [subscription.unsubscribe()] ends that. *)
Definition step (ev : Event) (h : Hook) : Hook :=
  match ev with
  | SessionResolved session => setSession session h
  | AuthStateChange _ session =>
      if subscribed h then setSession session h else h
  | Unmount => {| state := state h; subscribed := false |}
  end.

Fixpoint run (evs : list Event) (h : Hook) : Hook :=
  match evs with
  | [] => h
  | ev :: evs => run evs (step ev h)
  end.

End useAuth.

(** [user?.id], as both medication hooks compute it from [useAuth()]. *)
Definition currentUserId (auth : AuthState.t) : option string :=
  User.id <$> AuthState.user auth.

(** ** [AuthForm] ([src/components/AuthForm.tsx]) *)

Module AuthForm.

(** The five [useState] cells of the component. *)
Record State : Type := mkState {
  email : string;
  password : string;
  isLoginMode : bool;
  authError : option string;
  authLoading : bool
}.

Definition setAuthError (v : option string) (s : State) : State :=
  {| email := email s; password := password s; isLoginMode := isLoginMode s;
     authError := v; authLoading := authLoading s |}.

Definition setAuthLoading (v : bool) (s : State) : State :=
  {| email := email s; password := password s; isLoginMode := isLoginMode s;
     authError := authError s; authLoading := v |}.

(** The calls on the identity provider. *)
Inductive Call : Type :=
| signInWithPassword (email password : string)
| signUp (email password : string).

(** What the awaited call gives: the answer [{ data: { user }, error }],
    [error] being the message of the error object, or a rejection. *)
Inductive Answer : Type :=
| Answered (error : option string) (user : option User.t)
| Rejected (message : string).

(** The optional [onAuthSuccess] prop: absent, or a function that returns
    or throws. *)
Inductive Callback : Type :=
| NoCallback
| Returns
| Throws (message : string).

(** What a submit leaves behind: the state cells, the calls made on the
    identity provider and whether [onAuthSuccess] was called. *)
Record Outcome : Type := mkOutcome {
  state : State;
  calls : list Call;
  notified : bool
}.

(** [handleAuthSubmit].  A string stands for its sequence of code units;
    what goes to the console is left out. *)
Definition handleAuthSubmit (s : State) (answer : Answer)
    (onAuthSuccess : Callback) : Outcome :=
  let s := setAuthError None (setAuthLoading true s) in
  if falsy (Some (email s)) || falsy (Some (password s)) then
    {| state := setAuthLoading false
                  (setAuthError (Some "Email and password are required.") s);
       calls := []; notified := false |}
  else if bool_decide (String.length (password s) < 6)%nat && negb (isLoginMode s) then
    {| state := setAuthLoading false
                  (setAuthError
                     (Some "Password must be at least 6 characters long.") s);
       calls := []; notified := false |}
  else
    let call := if isLoginMode s
                then signInWithPassword (email s) (password s)
                else signUp (email s) (password s) in
    match answer with
    | Rejected message =>
        {| state := setAuthLoading false
                      (setAuthError
                         (Some ("An unexpected error occurred: " +:+ message)) s);
           calls := [call]; notified := false |}
    | Answered error user =>
        if negb (isLoginMode s) && negb (bool_decide (is_Some error))
           && negb (bool_decide (is_Some user)) then
          {| state := setAuthLoading false (setAuthLoading false
                        (setAuthError
                           (Some "Please check your email to confirm your account before logging in.")
                           s));
             calls := [call]; notified := false |}
        else
          match error with
          | Some message =>
              {| state := setAuthLoading false (setAuthError (Some message) s);
                 calls := [call]; notified := false |}
          | None =>
              match onAuthSuccess with
              | NoCallback =>
                  {| state := setAuthLoading false s;
                     calls := [call]; notified := false |}
              | Returns =>
                  {| state := setAuthLoading false s;
                     calls := [call]; notified := true |}
              | Throws message =>
                  {| state := setAuthLoading false
                                (setAuthError
                                   (Some ("An unexpected error occurred: " +:+ message))
                                   s);
                     calls := [call]; notified := true |}
              end
          end
    end.

(** What the component returns. *)
Inductive View : Type :=
| LoadingScreen
| Nothing
| Form.

Definition render (auth : AuthState.t) : View :=
  if AuthState.loading auth then LoadingScreen
  else if AuthState.user auth is Some _ then Nothing
  else Form.

(** The redirect effect: where it navigates, if it does. *)
Definition redirect (auth : AuthState.t) : option string :=
  if bool_decide (is_Some (AuthState.user auth)) && negb (AuthState.loading auth)
  then Some "/onboarding-role-select"
  else None.

End AuthForm.

(** A form filled in for a login. *)
Definition login_form : AuthForm.State :=
  {| AuthForm.email := "ann@example.com"; AuthForm.password := "pw";
     AuthForm.isLoginMode := true; AuthForm.authError := Some "Invalid login";
     AuthForm.authLoading := false |}.

(** * Properties *)

(** ** The state-passing layer *)

Lemma exec_bind {A B} (m : M A) (f : A -> M B) (w : World) :
  exec (m ≫= f) w = exec (f (eval m w)) (exec m w).
Proof. reflexivity. Qed.

Lemma eval_bind {A B} (m : M A) (f : A -> M B) (w : World) :
  eval (m ≫= f) w = eval (f (eval m w)) (exec m w).
Proof. reflexivity. Qed.

Ltac msimpl :=
  unfold exec, eval, mbind, M_bind, mret, M_ret, gets, log, modify_cache,
    with_cache, await in *;
  cbn [fst snd cache trace now fetchSeq] in *.

(** Unfolds the option records of the two hooks. *)
Ltac hooks :=
  cbn [useAddMedication useGetMedications
       MutationOptions.mutationFn MutationOptions.onMutate
       MutationOptions.onError MutationOptions.onSettled
       QueryOptions.queryKey QueryOptions.queryFn
       QueryOptions.enabled QueryOptions.staleTime] in *.

(** ** The query client operations *)

Lemma cache_cancelQueries (k : QueryKey) (w : World) :
  cache (exec (cancelQueries k) w) = alter drop_fetch k (cache w).
Proof. reflexivity. Qed.

Lemma trace_cancelQueries (k : QueryKey) (w : World) :
  trace (exec (cancelQueries k) w) = trace w ++ [CancelQueries k].
Proof. reflexivity. Qed.

Lemma cache_invalidateQueries (k : QueryKey) (w : World) :
  cache (exec (invalidateQueries k) w) = alter mark_invalidated k (cache w).
Proof. reflexivity. Qed.

Lemma trace_invalidateQueries (k : QueryKey) (w : World) :
  trace (exec (invalidateQueries k) w) = trace w ++ [InvalidateQueries k].
Proof. reflexivity. Qed.

Lemma dataOf_alter (f : Query -> Query) (k k' : QueryKey) (w w' : World) :
  (forall q, q_data (f q) = q_data q) ->
  cache w' = alter f k (cache w) ->
  dataOf k' w' = dataOf k' w.
Proof.
  intros Hf Hc. unfold dataOf. rewrite Hc, lookup_alter.
  destruct (decide (k = k')) as [->|]; [|done].
  destruct (cache w !! k'); simpl; [apply Hf | done].
Qed.

Lemma dataOf_cancelQueries (k k' : QueryKey) (w : World) :
  dataOf k' (exec (cancelQueries k) w) = dataOf k' w.
Proof. by apply (dataOf_alter drop_fetch k). Qed.

Lemma dataOf_invalidateQueries (k k' : QueryKey) (w : World) :
  dataOf k' (exec (invalidateQueries k) w) = dataOf k' w.
Proof. by apply (dataOf_alter mark_invalidated k). Qed.

Lemma cache_setQueryData (k : QueryKey) (u : Updater) (w : World) :
  cache (exec (setQueryData k u) w) =
  match functionalUpdate u (dataOf k w) with
  | None => cache w
  | Some d =>
      <[k := {| q_data := Some d; q_dataUpdatedAt := now w;
                q_isInvalidated := false;
                q_fetch := q ← cache w !! k; q_fetch q |}]> (cache w)
  end.
Proof.
  unfold setQueryData. msimpl.
  by destruct (functionalUpdate u (dataOf k w)).
Qed.

Lemma trace_setQueryData (k : QueryKey) (u : Updater) (w : World) :
  trace (exec (setQueryData k u) w) =
  trace w ++ [SetQueryData k (functionalUpdate u (dataOf k w))].
Proof.
  unfold setQueryData. msimpl.
  by destruct (functionalUpdate u (dataOf k w)).
Qed.

Lemma dataOf_setQueryData (k : QueryKey) (u : Updater) (w : World) :
  dataOf k (exec (setQueryData k u) w) =
  match functionalUpdate u (dataOf k w) with
  | None => dataOf k w
  | Some d => Some d
  end.
Proof.
  unfold dataOf at 1. rewrite cache_setQueryData.
  destruct (functionalUpdate u (dataOf k w)); [|done].
  by rewrite lookup_insert_eq.
Qed.

Lemma lookup_setQueryData_ne (k k' : QueryKey) (u : Updater) (w : World) :
  k ≠ k' -> cache (exec (setQueryData k u) w) !! k' = cache w !! k'.
Proof.
  intros Hne. rewrite cache_setQueryData.
  destruct (functionalUpdate u (dataOf k w)); [|done].
  by rewrite lookup_insert_ne.
Qed.

(** ** [onMutate] *)

Lemma truthy_resolved (u : string) : u ≠ "" -> truthy (Some u) = Some u.
Proof. intros Hu. unfold truthy, falsy. by destruct (decide (u = "")). Qed.

Lemma cache_getQueryData (k : QueryKey) (w : World) :
  cache (exec (getQueryData k) w) = cache w.
Proof. reflexivity. Qed.

Lemma eval_getQueryData (k : QueryKey) (w : World) :
  eval (getQueryData k) w = dataOf k w.
Proof. reflexivity. Qed.

Lemma dataOf_getQueryData (k k' : QueryKey) (w : World) :
  dataOf k' (exec (getQueryData k) w) = dataOf k' w.
Proof. reflexivity. Qed.

Lemma eval_onMutate (u : string) newMed e others w :
  u ≠ "" ->
  eval (onMutate (Some u) newMed e others) w =
  Some {| previousMedications :=
            dataOf (medicationsKey (Some u)) (at_snapshot (Some u) others w) |}.
Proof.
  intros Hu. unfold onMutate. rewrite (truthy_resolved u Hu). reflexivity.
Qed.

Lemma exec_onMutate (u : string) newMed e others w :
  u ≠ "" ->
  exec (onMutate (Some u) newMed e others) w =
  exec (setQueryData (medicationsKey (Some u))
          (Value (Some (apply_placeholder
                          (dataOf (medicationsKey (Some u))
                                  (at_snapshot (Some u) others w))
                          (tempMed newMed e u)))))
       (exec (getQueryData (medicationsKey (Some u)))
             (at_snapshot (Some u) others w)).
Proof.
  intros Hu. unfold onMutate. rewrite (truthy_resolved u Hu). reflexivity.
Qed.

Lemma dataOf_onMutate (u : string) newMed e others w :
  u ≠ "" ->
  dataOf (medicationsKey (Some u)) (exec (onMutate (Some u) newMed e others) w) =
  Some (apply_placeholder
          (dataOf (medicationsKey (Some u)) (at_snapshot (Some u) others w))
          (tempMed newMed e u)).
Proof.
  intros Hu. rewrite exec_onMutate by done. by rewrite dataOf_setQueryData.
Qed.

Lemma onMutate_unresolved (currentUserId : option string) newMed e others w :
  falsy currentUserId = true ->
  onMutate currentUserId newMed e others w = (None, w).
Proof. intros Hf. unfold onMutate, truthy. by rewrite Hf. Qed.

(** ** The speculative apply *)

Section TimeOrder.
(** The order of the [created_at] timestamps; nothing is assumed of it. *)
Variable earlier_eq : string -> string -> Prop.

Lemma Sorted_snoc (l : list Medication.t) (x : Medication.t) :
  Sorted (by_created_at earlier_eq) l ->
  Forall (fun m => by_created_at earlier_eq m x) l ->
  Sorted (by_created_at earlier_eq) (l ++ [x]).
Proof.
  induction 1 as [|a l Hs IH Hhd]; intros Hall; simpl.
  - repeat constructor.
  - apply Forall_cons in Hall as [Hax Hall].
    constructor; [by apply IH|].
    destruct Hhd; simpl; by constructor.
Qed.

(** C7: the speculative apply only appends.  Whatever ran while the
    cancel was awaited, the collection cached after [onMutate] is the
    collection read by the snapshot, every record unchanged and in its
    place, followed by the placeholder; from an absent collection it is
    the placeholder alone; the cancel itself changes no cached
    collection; and a collection in [created_at] order stays in order
    when no record is later than the placeholder's client timestamp. *)
Theorem speculative_apply_appends (u : string) (newMed : NewMedication.t)
    (e : Entropy) (others : M unit) (w : World) :
  u ≠ "" ->
  let k := medicationsKey (Some u) in
  let before := dataOf k (at_snapshot (Some u) others w) in
  let after := dataOf k (exec (onMutate (Some u) newMed e others) w) in
  let placeholder := tempMed newMed e u in
  (forall old, before = Some old -> after = Some (old ++ [placeholder])) /\
  (before = None -> after = Some [placeholder]) /\
  dataOf k (at_snapshot (Some u) (mret tt) w) = dataOf k w /\
  (forall old,
      before = Some old ->
      Sorted (by_created_at earlier_eq) old ->
      Forall (fun m => earlier_eq (Medication.created_at m) (isoNow e)) old ->
      exists new, after = Some new /\ Sorted (by_created_at earlier_eq) new).
Proof.
  intros Hu k before after placeholder.
  assert (Hafter : after = Some (apply_placeholder before placeholder))
    by (by apply dataOf_onMutate).
  repeat split.
  - intros old Hold. by rewrite Hafter, Hold.
  - intros Hnone. by rewrite Hafter, Hnone.
  - apply dataOf_cancelQueries.
  - intros old Hold Hsorted Hbound. exists (old ++ [placeholder]). split.
    + by rewrite Hafter, Hold.
    + by apply Sorted_snoc.
Qed.
End TimeOrder.

Lemma speculative_apply_appends_witness :
  exists new,
    dataOf (medicationsKey (Some "u1"))
      (exec (onMutate (Some "u1") aspirin entropy1 (mret tt)) fetched_client)
    = Some new /\ Sorted (by_created_at string_le) new.
Proof.
  refine (proj2 (proj2 (proj2
    (speculative_apply_appends string_le "u1" aspirin entropy1 (mret tt)
       fetched_client _))) [server_row] _ _ _).
  - discriminate.
  - reflexivity.
  - repeat constructor.
  - repeat constructor.
Defined.

(** ** The placeholder record *)

Lemma tempMed_id_length (newMed : NewMedication.t) (e : Entropy) (u : string) :
  String.length (Medication.id (tempMed newMed e u)) =
  (11 + String.length (uuid e))%nat.
Proof. reflexivity. Qed.

Lemma tempMed_id_inj newMed newMed' (e e' : Entropy) (u u' : string) :
  Medication.id (tempMed newMed e u) = Medication.id (tempMed newMed' e' u') ->
  uuid e = uuid e'.
Proof. simpl. intros H. by simplify_eq. Qed.

(** C6: the placeholder that [onMutate] puts last in the cached collection
    has the identifier ["optimistic-"] followed by the generated token,
    the client timestamp as [created_at], the current user as owner and
    the caller's three domain fields.  Its identifier is in a name space
    of its own: it differs from every string of the token's own length
    (so from every identifier produced by the bare token scheme), and two
    different tokens give two different identifiers. *)
Theorem placeholder_record (u : string) (newMed : NewMedication.t)
    (e : Entropy) (others : M unit) (w : World) :
  u ≠ "" ->
  exists old placeholder,
    dataOf (medicationsKey (Some u))
      (exec (onMutate (Some u) newMed e others) w) = Some (old ++ [placeholder]) /\
    Medication.id placeholder = "optimistic-" +:+ uuid e /\
    Medication.created_at placeholder = isoNow e /\
    Medication.user_id placeholder = u /\
    Medication.name placeholder = NewMedication.name newMed /\
    Medication.dosage placeholder = NewMedication.dosage newMed /\
    Medication.frequency placeholder = NewMedication.frequency newMed /\
    (forall s, String.length s = String.length (uuid e) ->
               Medication.id placeholder ≠ s) /\
    (forall e', uuid e' ≠ uuid e ->
                Medication.id (tempMed newMed e' u) ≠ Medication.id placeholder).
Proof.
  intros Hu.
  exists (default [] (dataOf (medicationsKey (Some u)) (at_snapshot (Some u) others w))),
         (tempMed newMed e u).
  split.
  { rewrite dataOf_onMutate by done. f_equal. unfold apply_placeholder.
    by destruct (dataOf _ _). }
  repeat split.
  - intros s Hlen Hid.
    pose proof (tempMed_id_length newMed e u) as Hl.
    rewrite Hid, Hlen in Hl. lia.
  - intros e' Hne Hid. apply Hne. by apply tempMed_id_inj in Hid.
Qed.

Lemma placeholder_record_witness :
  exists old placeholder,
    dataOf (medicationsKey (Some "u1"))
      (exec (onMutate (Some "u1") aspirin entropy1 (mret tt)) fetched_client)
    = Some (old ++ [placeholder]) /\
    Medication.id placeholder = "optimistic-" +:+ uuid entropy1 /\
    Medication.created_at placeholder = isoNow entropy1 /\
    Medication.user_id placeholder = "u1" /\
    Medication.name placeholder = NewMedication.name aspirin /\
    Medication.dosage placeholder = NewMedication.dosage aspirin /\
    Medication.frequency placeholder = NewMedication.frequency aspirin /\
    (forall s, String.length s = String.length (uuid entropy1) ->
               Medication.id placeholder ≠ s) /\
    (forall e', uuid e' ≠ uuid entropy1 ->
                Medication.id (tempMed aspirin e' "u1") ≠ Medication.id placeholder).
Proof.
  apply (placeholder_record "u1" aspirin entropy1 (mret tt) fetched_client).
  discriminate.
Defined.

(** ** One mutation, nothing else running *)

Lemma exec_mutate currentUserId newMed e insert s1 s2 w :
  exec (mutate (useAddMedication currentUserId) newMed e insert s1 s2) w =
  let w1 := exec (onMutate currentUserId newMed e s1) w in
  exec (settle (useAddMedication currentUserId) newMed
          (eval (onMutate currentUserId newMed e s1) w)
          (eval (mutationFn currentUserId newMed insert s2) w1))
       (exec (mutationFn currentUserId newMed insert s2) w1).
Proof. reflexivity. Qed.

Lemma eval_mutate currentUserId newMed e insert s1 s2 w :
  eval (mutate (useAddMedication currentUserId) newMed e insert s1 s2) w =
  eval (mutationFn currentUserId newMed insert s2)
       (exec (onMutate currentUserId newMed e s1) w).
Proof.
  unfold mutate. hooks. rewrite !eval_bind. unfold settle.
  by destruct (eval (mutationFn _ _ _ _) _).
Qed.

Lemma eval_mutationFn (u : string) newMed insert others w :
  u ≠ "" -> eval (mutationFn (Some u) newMed insert others) w = outcome insert.
Proof.
  intros Hu. unfold mutationFn. rewrite (truthy_resolved u Hu).
  by destruct insert.
Qed.

Lemma exec_mutationFn (u : string) newMed insert others w :
  u ≠ "" ->
  exec (mutationFn (Some u) newMed insert others) w =
  exec others (exec (log (RemoteInsert newMed u)) w).
Proof.
  intros Hu. unfold mutationFn. rewrite (truthy_resolved u Hu).
  by destruct insert.
Qed.

Lemma lookup_onMutate (u : string) newMed e w :
  u ≠ "" ->
  cache (exec (onMutate (Some u) newMed e (mret tt)) w) !! medicationsKey (Some u) =
  Some {| q_data := Some (apply_placeholder (dataOf (medicationsKey (Some u)) w)
                                            (tempMed newMed e u));
          q_dataUpdatedAt := now w;
          q_isInvalidated := false;
          q_fetch := None |}.
Proof.
  intros Hu. rewrite exec_onMutate by done.
  set (k := medicationsKey (Some u)).
  rewrite cache_setQueryData. cbn [functionalUpdate].
  rewrite lookup_insert_eq. f_equal.
  change (dataOf k (at_snapshot (Some u) (mret tt) w))
    with (dataOf k (exec (cancelQueries k) w)).
  rewrite dataOf_cancelQueries. f_equal.
  change (cache (exec (getQueryData k) (at_snapshot (Some u) (mret tt) w)))
    with (alter drop_fetch k (cache w)).
  rewrite lookup_alter_eq. by destruct (cache w !! k).
Qed.

Lemma exec_ret {A} (a : A) (w : World) : exec (mret a) w = w.
Proof. reflexivity. Qed.

Lemma eval_ret {A} (a : A) (w : World) : eval (mret a) w = a.
Proof. reflexivity. Qed.

Lemma trace_log (c : Call) (w : World) : trace (exec (log c) w) = trace w ++ [c].
Proof. reflexivity. Qed.

Lemma trace_getQueryData (k : QueryKey) (w : World) :
  trace (exec (getQueryData k) w) = trace w ++ [GetQueryData k].
Proof. reflexivity. Qed.

Create Rewrite HintDb mrun.
#[local] Hint Rewrite @exec_bind @eval_bind @exec_ret @eval_ret
  trace_log trace_getQueryData trace_cancelQueries trace_invalidateQueries
  trace_setQueryData eval_getQueryData dataOf_getQueryData
  dataOf_cancelQueries dataOf_invalidateQueries dataOf_setQueryData : mrun.

Lemma trace_onMutate (u : string) newMed e w :
  u ≠ "" ->
  let k := medicationsKey (Some u) in
  trace (exec (onMutate (Some u) newMed e (mret tt)) w) =
  trace w ++
  [CancelQueries k; GetQueryData k;
   SetQueryData k (Some (apply_placeholder (dataOf k w) (tempMed newMed e u)))].
Proof.
  intros Hu k. rewrite exec_onMutate by done. unfold at_snapshot, await. fold k.
  autorewrite with mrun. cbn [functionalUpdate].
  by rewrite <- !app_assoc.
Qed.

Lemma trace_mutate (u : string) newMed e insert w :
  u ≠ "" ->
  let k := medicationsKey (Some u) in
  trace (exec (mutate (useAddMedication (Some u)) newMed e insert (mret tt) (mret tt)) w) =
  trace w ++
  [CancelQueries k; GetQueryData k;
   SetQueryData k (Some (apply_placeholder (dataOf k w) (tempMed newMed e u)));
   RemoteInsert newMed u] ++
  match insert with
  | Failure _ => [SetQueryData k (dataOf k w)]
  | Data _ => []
  end ++ [InvalidateQueries k].
Proof.
  intros Hu k. rewrite exec_mutate. cbv zeta.
  rewrite eval_mutationFn, exec_mutationFn, eval_onMutate by done.
  unfold at_snapshot, await. fold k.
  destruct insert as [data|message]; cbn [outcome settle]; hooks;
    unfold onError, onSettled; fold k; autorewrite with mrun;
    rewrite trace_onMutate by done; fold k; cbn [mbind option_bind previousMedications functionalUpdate].
  - by rewrite <- !app_assoc.
  - by rewrite <- !app_assoc.
Qed.

Lemma now_onMutate (u : string) newMed e w :
  u ≠ "" -> now (exec (onMutate (Some u) newMed e (mret tt)) w) = now w.
Proof. intros Hu. by rewrite exec_onMutate. Qed.

Lemma lookup_mutate (u : string) newMed e insert w :
  u ≠ "" ->
  let k := medicationsKey (Some u) in
  cache (exec (mutate (useAddMedication (Some u)) newMed e insert (mret tt) (mret tt)) w) !! k =
  Some {| q_data :=
            Some match insert, dataOf k w with
                 | Failure _, Some old => old
                 | _, snapshot => apply_placeholder snapshot (tempMed newMed e u)
                 end;
          q_dataUpdatedAt := now w;
          q_isInvalidated := true;
          q_fetch := None |}.
Proof.
  intros Hu k. rewrite exec_mutate. cbv zeta.
  rewrite eval_mutationFn, exec_mutationFn, eval_onMutate by done.
  unfold at_snapshot, await. fold k. autorewrite with mrun.
  pose proof (lookup_onMutate u newMed e w Hu) as H1. fold k in H1.
  pose proof (now_onMutate u newMed e w Hu) as Hnow.
  set (w1 := exec (onMutate (Some u) newMed e (mret tt)) w) in *.
  destruct insert as [data|message]; cbn [outcome settle]; hooks;
    unfold onError, onSettled; fold k; autorewrite with mrun;
    rewrite cache_invalidateQueries, lookup_alter_eq.
  - change (cache (exec (log (RemoteInsert newMed u)) w1)) with (cache w1).
    rewrite H1. simpl. unfold mark_invalidated. simpl. reflexivity.
  - rewrite cache_setQueryData.
    cbn [mbind option_bind previousMedications functionalUpdate].
    change (cache (exec (log (RemoteInsert newMed u)) w1)) with (cache w1).
    change (now (exec (log (RemoteInsert newMed u)) w1)) with (now w1).
    destruct (dataOf k w) as [old|].
    + rewrite lookup_insert_eq, H1, Hnow. reflexivity.
    + rewrite H1. reflexivity.
Qed.

(** ** Reads and fetches *)

Lemma enabled_resolved (u : string) :
  u ≠ "" -> QueryOptions.enabled (useGetMedications (Some u) false) = true.
Proof. intros Hu. hooks. unfold falsy. by destruct (decide (u = "")). Qed.

Lemma exec_startFetch (u : string) (w : World) :
  u ≠ "" ->
  exec (startFetch (useGetMedications (Some u) false)) w =
  {| cache :=
       <[medicationsKey (Some u) :=
           match cache w !! medicationsKey (Some u) with
           | Some q => {| q_data := q_data q; q_dataUpdatedAt := q_dataUpdatedAt q;
                          q_isInvalidated := q_isInvalidated q;
                          q_fetch := Some (fetchSeq w) |}
           | None => {| q_data := None; q_dataUpdatedAt := 0;
                        q_isInvalidated := false; q_fetch := Some (fetchSeq w) |}
           end]> (cache w);
     fetchSeq := S (fetchSeq w);
     now := now w;
     trace := trace w ++ [RemoteSelect u] |}.
Proof.
  intros Hu. unfold startFetch; hooks; unfold queryFn, set_fetch.
  rewrite (truthy_resolved u Hu). msimpl.
  by destruct (cache w !! medicationsKey (Some u)).
Qed.

Lemma load_refetches (u : string) (q : Query) (w : World) :
  u ≠ "" ->
  cache w !! medicationsKey (Some u) = Some q ->
  q_fetch q = None ->
  isStale staleTime q (now w) = true ->
  load (useGetMedications (Some u) false) w = (Fetching, exec (startFetch (useGetMedications (Some u) false)) w).
Proof.
  intros Hu Hq Hf Hs. unfold load. rewrite (enabled_resolved u Hu). hooks.
  msimpl. by rewrite Hq, Hf, Hs.
Qed.

Lemma load_fresh (u : string) (q : Query) (w : World) :
  u ≠ "" ->
  cache w !! medicationsKey (Some u) = Some q ->
  q_fetch q = None ->
  isStale staleTime q (now w) = false ->
  load (useGetMedications (Some u) false) w = (Fresh, w).
Proof.
  intros Hu Hq Hf Hs. unfold load. rewrite (enabled_resolved u Hu). hooks.
  msimpl. by rewrite Hq, Hf, Hs.
Qed.

Lemma load_in_flight (u : string) (q : Query) (token : nat) (w : World) :
  u ≠ "" ->
  cache w !! medicationsKey (Some u) = Some q ->
  q_fetch q = Some token ->
  load (useGetMedications (Some u) false) w = (Fetching, w).
Proof.
  intros Hu Hq Hf. unfold load. rewrite (enabled_resolved u Hu). hooks.
  msimpl. by rewrite Hq, Hf.
Qed.

Lemma load_disabled (currentUserId : option string) (authLoading : bool) (w : World) :
  QueryOptions.enabled (useGetMedications currentUserId authLoading) = false ->
  load (useGetMedications currentUserId authLoading) w = (NotReady, w).
Proof. intros He. unfold load. by rewrite He. Qed.

Lemma fetchCompleted_applies (k : QueryKey) (token : nat) (q : Query)
    (rows : list Medication.t) (w : World) :
  cache w !! k = Some q ->
  q_fetch q = Some token ->
  exec (fetchCompleted k token (Data rows)) w =
  {| cache := <[k := {| q_data := Some rows; q_dataUpdatedAt := now w;
                        q_isInvalidated := false; q_fetch := None |}]> (cache w);
     fetchSeq := fetchSeq w;
     now := now w;
     trace := trace w ++ [FetchCompleted k token true] |}.
Proof.
  intros Hq Hf. unfold fetchCompleted. msimpl. rewrite Hq.
  destruct (decide (q_fetch q = Some token)); [|done].
  reflexivity.
Qed.

Lemma fetchCompleted_dropped (k : QueryKey) (token : nat)
    (answer : Response (list Medication.t)) (w : World) :
  (q ← cache w !! k; q_fetch q) ≠ Some token ->
  exec (fetchCompleted k token answer) w =
  {| cache := cache w; fetchSeq := fetchSeq w; now := now w;
     trace := trace w ++ [FetchCompleted k token false] |}.
Proof.
  intros Hne. unfold fetchCompleted. msimpl.
  destruct (cache w !! k) as [q|] eqn:Hq; [|done].
  simpl in Hne. by destruct (decide (q_fetch q = Some token)).
Qed.

(** ** Settling *)

Lemma isStale_invalidated (q : Query) (t : Z) :
  q_isInvalidated q = true -> isStale staleTime q t = true.
Proof. intros Hi. unfold isStale. rewrite Hi. by destruct (q_data q). Qed.

(** A read of an invalidated, idle entry starts a fetch, and the completion
    of that fetch replaces the cached collection by the server's rows. *)
Lemma refetch_after_invalidation (u : string) (q : Query) (dt : N)
    (rows : list Medication.t) (w : World) :
  u ≠ "" ->
  cache w !! medicationsKey (Some u) = Some q ->
  q_fetch q = None ->
  q_isInvalidated q = true ->
  let k := medicationsKey (Some u) in
  let reading := exec (tick dt;; load (useGetMedications (Some u) false)) w in
  trace reading = trace w ++ [RemoteSelect u] /\
  dataOf k reading = q_data q /\
  dataOf k (exec (fetchCompleted k (fetchSeq w) (Data rows)) reading) = Some rows.
Proof.
  intros Hu Hq Hf Hi k reading.
  assert (Hr : reading = exec (startFetch (useGetMedications (Some u) false)) (exec (tick dt) w)).
  { pose proof (load_refetches u q (exec (tick dt) w) Hu Hq Hf
                  (isStale_invalidated q _ Hi)) as Hl.
    unfold reading. rewrite exec_bind. unfold exec at 1. by rewrite Hl. }
  rewrite Hr, exec_startFetch by done.
  change (cache (exec (tick dt) w)) with (cache w).
  change (fetchSeq (exec (tick dt) w)) with (fetchSeq w).
  rewrite Hq. fold k. repeat split.
  - unfold dataOf. cbn [cache]. by rewrite lookup_insert_eq.
  - erewrite fetchCompleted_applies;
      [|cbn [cache]; apply lookup_insert_eq | reflexivity].
    unfold dataOf. cbn [cache]. by rewrite lookup_insert_eq.
Qed.

(** C10: a mutation that starts on an absent collection and whose insert
    fails.  The snapshot is the absent value; the rollback write of an
    absent snapshot leaves the cache as it is; so after settle the cached
    collection is the placeholder alone, not the absent collection.  The
    entry is marked invalidated, the next read sends a select to the
    remote store while the placeholder is still cached, and the
    completion of that fetch replaces the collection by the server's
    rows. *)
Theorem absent_snapshot_is_not_restored (u : string) (newMed : NewMedication.t)
    (e : Entropy) (message : string) (dt : N) (rows : list Medication.t)
    (w : World) :
  u ≠ "" ->
  let k := medicationsKey (Some u) in
  dataOf k w = None ->
  let placeholder := tempMed newMed e u in
  let absent := Some {| previousMedications := None |} in
  let settled :=
    exec (mutate (useAddMedication (Some u)) newMed e (Failure message) (mret tt) (mret tt)) w in
  let reading := exec (tick dt;; load (useGetMedications (Some u) false)) settled in
  eval (onMutate (Some u) newMed e (mret tt)) w = absent /\
  (forall err w1, cache (exec (onError (Some u) err newMed absent) w1) = cache w1) /\
  trace settled =
    trace w ++ [CancelQueries k; GetQueryData k; SetQueryData k (Some [placeholder]);
                RemoteInsert newMed u; SetQueryData k None; InvalidateQueries k] /\
  dataOf k settled = Some [placeholder] /\
  (exists q, cache settled !! k = Some q /\ q_isInvalidated q = true) /\
  trace reading = trace settled ++ [RemoteSelect u] /\
  dataOf k reading = Some [placeholder] /\
  dataOf k (exec (fetchCompleted k (fetchSeq settled) (Data rows)) reading) = Some rows.
Proof.
  intros Hu k Habsent placeholder absent settled reading.
  pose proof (lookup_mutate u newMed e (Failure message) w Hu) as Hq.
  pose proof (trace_mutate u newMed e (Failure message) w Hu) as Ht.
  cbv zeta in Hq, Ht. fold k settled in Hq, Ht. rewrite Habsent in Hq, Ht.
  cbn [apply_placeholder] in Hq, Ht. fold placeholder in Hq, Ht.
  destruct (refetch_after_invalidation u _ dt rows settled Hu Hq eq_refl eq_refl)
    as (Hr1 & Hr2 & Hr3).
  repeat split; try done.
  - rewrite eval_onMutate by done. unfold absent. do 2 f_equal.
    unfold at_snapshot, await. rewrite exec_bind, exec_ret.
    by rewrite dataOf_cancelQueries.
  - unfold dataOf. by rewrite Hq.
  - eexists. split; [exact Hq | done].
Qed.

Lemma absent_snapshot_is_not_restored_witness :
  dataOf (medicationsKey (Some "u1"))
    (exec (mutate (useAddMedication (Some "u1")) aspirin entropy1 (Failure "insert rejected")
             (mret tt) (mret tt)) fresh_client)
  = Some [tempMed aspirin entropy1 "u1"].
Proof.
  refine (proj1 (proj2 (proj2 (proj2
    (absent_snapshot_is_not_restored "u1" aspirin entropy1 "insert rejected"
       0%N [server_row] fresh_client _ _))))).
  - discriminate.
  - reflexivity.
Defined.

(** When the snapshot is a present collection, the failure path writes it
    back: whatever ran during the two awaits, the collection cached after
    settle is the snapshot. *)
Lemma rollback_restores_present_snapshot (u : string) newMed e message
    (s1 s2 : M unit) (old : list Medication.t) (w : World) :
  u ≠ "" ->
  previousMedications <$> eval (onMutate (Some u) newMed e s1) w = Some (Some old) ->
  dataOf (medicationsKey (Some u))
    (exec (mutate (useAddMedication (Some u)) newMed e (Failure message) s1 s2) w) = Some old.
Proof.
  intros Hu Hsnap. rewrite exec_mutate. cbv zeta.
  rewrite eval_mutationFn by done. cbn [outcome settle]. hooks.
  destruct (eval (onMutate (Some u) newMed e s1) w) as [[snapshot]|];
    simplify_eq/=.
  unfold onError, onSettled. autorewrite with mrun. done.
Qed.

(** C1 at the input on which the code departs from it: user [u1], nothing
    cached yet for the user's key, and the remote store rejects the
    insert.  The snapshot is the absent collection, the mutation reports
    the remote error, and the collection cached after settle is the
    placeholder alone: it is not the snapshot. *)
Theorem rollback_misses_absent_snapshot :
  let k := medicationsKey (Some "u1") in
  let run := mutate (useAddMedication (Some "u1")) aspirin entropy1 (Failure "insert rejected")
               (mret tt) (mret tt) in
  dataOf k fresh_client = None /\
  eval (onMutate (Some "u1") aspirin entropy1 (mret tt)) fresh_client =
    Some {| previousMedications := None |} /\
  eval run fresh_client = Err (RemoteError "insert rejected") /\
  dataOf k (exec run fresh_client) = Some [tempMed aspirin entropy1 "u1"] /\
  dataOf k (exec run fresh_client) ≠ dataOf k fresh_client.
Proof. repeat split. discriminate. Qed.

Lemma trace_settle currentUserId newMed context r w :
  exists calls,
    trace (exec (settle (useAddMedication currentUserId) newMed context r) w) =
    calls ++ [InvalidateQueries (medicationsKey currentUserId)].
Proof.
  destruct r as [data|err]; cbn [settle]; hooks; unfold onSettled;
    autorewrite with mrun; eauto.
Qed.

(** C3: every mutation ends by invalidating its collection key, on
    success and on failure, whatever ran during its awaits.  For a
    resolved user the entry is then marked invalidated, so the next read,
    whenever it comes, sends a select to the remote store, and the
    completion of that fetch replaces the cached collection by the
    server's rows.  On success nothing else touches the cache after the
    insert: the cached collection after settle is still the one written
    by the speculative apply, placeholder included, and the state reached
    does not depend on the record the remote store returned. *)
Theorem settle_invalidates_and_never_patches (u : string)
    (newMed : NewMedication.t) (e : Entropy) (w : World) :
  u ≠ "" ->
  let k := medicationsKey (Some u) in
  let placeholder := tempMed newMed e u in
  let settled insert :=
    exec (mutate (useAddMedication (Some u)) newMed e insert (mret tt) (mret tt)) w in
  (forall currentUserId insert s1 s2, exists calls,
      trace (exec (mutate (useAddMedication currentUserId) newMed e insert s1 s2) w) =
      calls ++ [InvalidateQueries (medicationsKey currentUserId)]) /\
  (forall insert, exists q,
      cache (settled insert) !! k = Some q /\ q_isInvalidated q = true) /\
  (forall insert dt rows,
      let reading := exec (tick dt;; load (useGetMedications (Some u) false)) (settled insert) in
      trace reading = trace (settled insert) ++ [RemoteSelect u] /\
      dataOf k (exec (fetchCompleted k (fetchSeq (settled insert)) (Data rows))
                     reading) = Some rows) /\
  (forall row,
      dataOf k (settled (Data row)) =
        Some (apply_placeholder (dataOf k w) placeholder) /\
      trace (settled (Data row)) =
        trace w ++ [CancelQueries k; GetQueryData k;
                    SetQueryData k (Some (apply_placeholder (dataOf k w) placeholder));
                    RemoteInsert newMed u; InvalidateQueries k] /\
      forall row', settled (Data row') = settled (Data row)).
Proof.
  intros Hu k placeholder settled. repeat split.
  - intros currentUserId insert s1 s2. rewrite exec_mutate. apply trace_settle.
  - intros insert. pose proof (lookup_mutate u newMed e insert w Hu) as Hq.
    eexists. split; [exact Hq | done].
  - pose proof (lookup_mutate u newMed e insert w Hu) as Hq.
    by destruct (refetch_after_invalidation u _ dt rows (settled insert) Hu Hq
                   eq_refl eq_refl) as (? & ? & ?).
  - pose proof (lookup_mutate u newMed e insert w Hu) as Hq.
    by destruct (refetch_after_invalidation u _ dt rows (settled insert) Hu Hq
                   eq_refl eq_refl) as (? & ? & ?).
  - pose proof (lookup_mutate u newMed e (Data row) w Hu) as Hq.
    cbv zeta in Hq. unfold dataOf at 1. unfold settled, k. by rewrite Hq.
  - exact (trace_mutate u newMed e (Data row) w Hu).
  - intros row'. unfold settled. rewrite !exec_mutate. cbv zeta.
    by rewrite !eval_mutationFn, !exec_mutationFn.
Qed.

Lemma settle_invalidates_and_never_patches_witness :
  exists q,
    cache (exec (mutate (useAddMedication (Some "u1")) aspirin entropy1 (Data server_row)
                   (mret tt) (mret tt)) fetched_client)
      !! medicationsKey (Some "u1") = Some q /\
    q_isInvalidated q = true.
Proof.
  refine (proj1 (proj2
    (settle_invalidates_and_never_patches "u1" aspirin entropy1 fetched_client _))
    (Data server_row)).
  discriminate.
Defined.

(** ** No resolved user *)

(** C2: with no current user the mutation fails with the authentication
    error of [mutationFn], whatever the remote store would have answered.
    [onMutate] returns at once and leaves the client as it is.  Over the
    whole call no query is cancelled, no snapshot is read, no collection
    is written and no insert is sent: the only calls are the rollback
    write of an absent snapshot, which the client ignores, and the
    invalidation of the key without owner.  Every cached collection and
    every fetch in flight is as before, and every entry other than the
    one without owner is untouched. *)
Theorem unresolved_user_fails_fast (newMed : NewMedication.t) (e : Entropy)
    (insert : Response Medication.t) (s1 s2 : M unit) (w : World) :
  let run := mutate (useAddMedication None) newMed e insert s1 s2 in
  eval run w = Err (JsError "User not authenticated.") /\
  onMutate None newMed e s1 w = (None, w) /\
  (exists calls,
      trace (exec run w) = trace w ++ calls /\
      calls = [SetQueryData (medicationsKey None) None;
               InvalidateQueries (medicationsKey None)] /\
      (forall k, ~ In (CancelQueries k) calls) /\
      (forall k, ~ In (GetQueryData k) calls) /\
      (forall k data, ~ In (SetQueryData k (Some data)) calls) /\
      (forall row user, ~ In (RemoteInsert row user) calls)) /\
  (forall k, dataOf k (exec run w) = dataOf k w) /\
  (forall k, (q ← cache (exec run w) !! k; q_fetch q) = (q ← cache w !! k; q_fetch q)) /\
  (forall k, k ≠ medicationsKey None -> cache (exec run w) !! k = cache w !! k).
Proof.
  intros run.
  assert (Hexec : exec run w = exec (invalidateQueries (medicationsKey None))
                    (exec (setQueryData (medicationsKey None) (Value None)) w))
    by reflexivity.
  assert (Hcache : cache (exec run w) =
                   alter mark_invalidated (medicationsKey None) (cache w))
    by (rewrite Hexec, cache_invalidateQueries; by rewrite cache_setQueryData).
  repeat split.
  - eexists. split; [|split; [reflexivity|]].
    + rewrite Hexec. autorewrite with mrun. cbn [functionalUpdate].
      by rewrite <- app_assoc.
    + repeat split; intros; simpl; intros [?|[?|[]]]; discriminate.
  - intros k. by apply (dataOf_alter mark_invalidated (medicationsKey None)).
  - intros k. rewrite Hcache, lookup_alter.
    destruct (decide (medicationsKey None = k)) as [->|]; [|done].
    by destruct (cache w !! k).
  - intros k Hk. by rewrite Hcache, lookup_alter_ne.
Qed.

(** ** Confinement to one key *)

Lemma confined_ret (k : QueryKey) {A} (a : A) : confined k (mret a).
Proof. intros w. split; [done|]. exists []. by rewrite app_nil_r. Qed.

Lemma confined_bind (k : QueryKey) {A B} (m : M A) (f : A -> M B) :
  confined k m -> (forall a, confined k (f a)) -> confined k (m ≫= f).
Proof.
  intros Hm Hf w. rewrite exec_bind.
  destruct (Hm w) as [Hc (calls & Ht & Hall)].
  destruct (Hf (eval m w) (exec m w)) as [Hc' (calls' & Ht' & Hall')].
  split.
  - intros k' Hk'. by rewrite Hc', Hc.
  - exists (calls ++ calls'). split.
    + by rewrite Ht', Ht, app_assoc.
    + by apply Forall_app.
Qed.

Lemma confined_gets (k : QueryKey) {A} (f : World -> A) : confined k (gets f).
Proof. intros w. split; [done|]. exists []. by rewrite app_nil_r. Qed.

Lemma confined_log (k : QueryKey) (c : Call) : on_key k c -> confined k (log c).
Proof. intros Hc w. split; [done|]. exists [c]. split; [done|]. by constructor. Qed.

Lemma confined_modify_cache (k : QueryKey) (f : gmap QueryKey Query -> gmap QueryKey Query) :
  (forall c k', k' ≠ k -> f c !! k' = c !! k') -> confined k (modify_cache f).
Proof.
  intros Hf w. split; [intros k' Hk'; by apply Hf|].
  exists []. by rewrite app_nil_r.
Qed.

Lemma confined_cancelQueries (k : QueryKey) : confined k (cancelQueries k).
Proof.
  apply confined_bind; [by apply confined_log|intros _].
  apply confined_modify_cache. intros c k' Hk'. by rewrite lookup_alter_ne.
Qed.

Lemma confined_invalidateQueries (k : QueryKey) : confined k (invalidateQueries k).
Proof.
  apply confined_bind; [by apply confined_log|intros _].
  apply confined_modify_cache. intros c k' Hk'. by rewrite lookup_alter_ne.
Qed.

Lemma confined_getQueryData (k : QueryKey) : confined k (getQueryData k).
Proof.
  apply confined_bind; [by apply confined_log|intros _]. apply confined_gets.
Qed.

Lemma confined_setQueryData (k : QueryKey) (u : Updater) :
  confined k (setQueryData k u).
Proof.
  apply confined_bind; [apply confined_gets|intros prev].
  apply confined_bind; [by apply confined_log|intros _].
  destruct (functionalUpdate u prev); [|apply confined_ret].
  apply confined_bind; [apply confined_gets|intros t].
  apply confined_modify_cache. intros c k' Hk'. by rewrite lookup_insert_ne.
Qed.

Lemma confined_set_fetch (k : QueryKey) (f : option nat) : confined k (set_fetch k f).
Proof.
  apply confined_modify_cache. intros c k' Hk'.
  destruct (c !! k); by rewrite lookup_insert_ne.
Qed.

Create HintDb confined.
#[local] Hint Resolve confined_ret confined_gets confined_cancelQueries
  confined_invalidateQueries confined_getQueryData confined_setQueryData
  confined_set_fetch : confined.

Lemma confined_onMutate currentUserId newMed e others :
  confined (medicationsKey currentUserId) others ->
  confined (medicationsKey currentUserId) (onMutate currentUserId newMed e others).
Proof.
  intros Ho. unfold onMutate, await.
  destruct (truthy currentUserId); [|apply confined_ret].
  repeat (apply confined_bind; [auto with confined|intros ?]).
  apply confined_ret.
Qed.

Lemma confined_mutationFn currentUserId newMed insert others :
  confined (medicationsKey currentUserId) others ->
  confined (medicationsKey currentUserId) (mutationFn currentUserId newMed insert others).
Proof.
  intros Ho. unfold mutationFn, await.
  destruct (truthy currentUserId); [|apply confined_ret].
  apply confined_bind; [by apply confined_log|intros _].
  apply confined_bind; [done|intros _].
  destruct insert; apply confined_ret.
Qed.

Lemma confined_onError currentUserId err newMed context :
  confined (medicationsKey currentUserId) (onError currentUserId err newMed context).
Proof. apply confined_setQueryData. Qed.

Lemma confined_onSettled currentUserId :
  confined (medicationsKey currentUserId) (onSettled currentUserId).
Proof. apply confined_invalidateQueries. Qed.

Lemma confined_settle currentUserId newMed context r :
  confined (medicationsKey currentUserId) (settle (useAddMedication currentUserId) newMed context r).
Proof.
  destruct r; cbn [settle]; hooks;
    repeat (apply confined_bind; [auto using confined_onError, confined_onSettled|intros ?]);
    apply confined_ret.
Qed.

Lemma confined_mutate currentUserId newMed e insert s1 s2 :
  confined (medicationsKey currentUserId) s1 ->
  confined (medicationsKey currentUserId) s2 ->
  confined (medicationsKey currentUserId) (mutate (useAddMedication currentUserId) newMed e insert s1 s2).
Proof.
  intros H1 H2. unfold mutate. hooks.
  apply confined_bind; [by apply confined_onMutate|intros context].
  apply confined_bind; [by apply confined_mutationFn|intros r].
  apply confined_settle.
Qed.

Lemma confined_startFetch currentUserId authLoading :
  confined (medicationsKey currentUserId)
    (startFetch (useGetMedications currentUserId authLoading)).
Proof.
  unfold startFetch. hooks.
  apply confined_bind; [apply confined_gets|intros token].
  apply confined_bind.
  { intros w. split; [done|]. exists []. by rewrite app_nil_r. }
  intros _. apply confined_bind; [apply confined_set_fetch|intros _].
  apply confined_bind.
  - unfold queryFn. destruct (truthy currentUserId); [|apply confined_ret].
    apply confined_bind; [by apply confined_log|intros _]. apply confined_ret.
  - intros [?|?]; auto with confined.
Qed.

Lemma confined_load currentUserId authLoading :
  confined (medicationsKey currentUserId)
    (load (useGetMedications currentUserId authLoading)).
Proof.
  unfold load.
  destruct (QueryOptions.enabled (useGetMedications currentUserId authLoading));
    [|apply confined_ret].
  hooks.
  apply confined_bind; [apply confined_gets|intros q].
  apply confined_bind; [apply confined_gets|intros t].
  destruct q as [q|].
  - destruct (q_fetch q); [apply confined_ret|].
    destruct (isStale staleTime q t); [|apply confined_ret].
    apply confined_bind; [apply confined_startFetch|intros _]. apply confined_ret.
  - apply confined_bind; [apply confined_startFetch|intros _]. apply confined_ret.
Qed.

Lemma confined_fetchCompleted k token answer :
  confined k (fetchCompleted k token answer).
Proof.
  unfold fetchCompleted.
  apply confined_bind; [apply confined_gets|intros q].
  destruct q as [q|]; [|by apply confined_log].
  destruct (decide (q_fetch q = Some token)); [|by apply confined_log].
  apply confined_bind; [by apply confined_log|intros _].
  destruct (queryFn_resume answer); [|apply confined_set_fetch].
  apply confined_bind; [apply confined_gets|intros t].
  apply confined_modify_cache. intros c k' Hk'. by rewrite lookup_insert_ne.
Qed.

(** C4: two distinct owners.  Everything the hooks do for user [u], the
    speculative apply, the remote write, the rollback, the invalidation,
    a whole mutation with either outcome, a read and the completion of a
    fetch, leaves the cache entry of user [v] exactly as it was, and every
    call made on the query client is on the key of [u]. *)
Theorem owners_are_isolated (u v : string) (newMed : NewMedication.t)
    (e : Entropy) (insert : Response Medication.t) (err : Error)
    (context : option Context) (authLoading : bool) (token : nat)
    (answer : Response (list Medication.t)) (w : World) :
  u ≠ v ->
  let ku := medicationsKey (Some u) in
  let kv := medicationsKey (Some v) in
  let untouched (A : Type) (m : M A) :=
    cache (exec m w) !! kv = cache w !! kv /\
    exists calls, trace (exec m w) = trace w ++ calls /\ Forall (on_key ku) calls in
  untouched _ (onMutate (Some u) newMed e (mret tt)) /\
  untouched _ (mutationFn (Some u) newMed insert (mret tt)) /\
  untouched _ (onError (Some u) err newMed context) /\
  untouched _ (onSettled (Some u)) /\
  untouched _ (mutate (useAddMedication (Some u)) newMed e insert (mret tt) (mret tt)) /\
  untouched _ (load (useGetMedications (Some u) authLoading)) /\
  untouched _ (fetchCompleted ku token answer).
Proof.
  intros Huv ku kv untouched.
  assert (Hk : kv ≠ ku) by (unfold kv, ku, medicationsKey; congruence).
  assert (Hconf : forall A (m : M A), confined ku m -> untouched A m).
  { intros A m Hm. destruct (Hm w) as [Hc Ht]. split; [by apply Hc | done]. }
  refine (conj _ (conj _ (conj _ (conj _ (conj _ (conj _ _)))))); apply Hconf.
  - apply confined_onMutate, confined_ret.
  - apply confined_mutationFn, confined_ret.
  - apply confined_onError.
  - apply confined_onSettled.
  - apply confined_mutate; apply confined_ret.
  - apply confined_load.
  - apply confined_fetchCompleted.
Qed.

Lemma owners_are_isolated_witness :
  cache (exec (mutate (useAddMedication (Some "u1")) aspirin entropy1 (Failure "insert rejected")
                 (mret tt) (mret tt)) other_owner_client)
    !! medicationsKey (Some "u2")
  = cache other_owner_client !! medicationsKey (Some "u2").
Proof.
  refine (proj1 (proj1 (proj2 (proj2 (proj2 (proj2
    (owners_are_isolated "u1" "u2" aspirin entropy1 (Failure "insert rejected")
       (RemoteError "insert rejected") None false 0 (Data [])
       other_owner_client _))))))).
  discriminate.
Defined.

(** ** Two mutations on one key *)

Lemma dataOf_onMutate_alone (u : string) newMed e w :
  u ≠ "" ->
  dataOf (medicationsKey (Some u)) (exec (onMutate (Some u) newMed e (mret tt)) w) =
  Some (apply_placeholder (dataOf (medicationsKey (Some u)) w) (tempMed newMed e u)).
Proof.
  intros Hu. rewrite dataOf_onMutate by done. do 2 f_equal.
  apply dataOf_cancelQueries.
Qed.

Lemma eval_onMutate_alone (u : string) newMed e w :
  u ≠ "" ->
  eval (onMutate (Some u) newMed e (mret tt)) w =
  Some {| previousMedications := dataOf (medicationsKey (Some u)) w |}.
Proof.
  intros Hu. rewrite eval_onMutate by done. do 2 f_equal.
  apply dataOf_cancelQueries.
Qed.

(** C8: a second mutation on the same key starts while the insert of the
    first is awaited.  Each [onMutate] returns its own snapshot, read when
    it runs: the first the collection cached before it, the second the
    collection that already ends with the first placeholder.  After the
    second [onMutate] both placeholders are cached, in call order.  When
    the second insert fails and the second mutation settles, all while
    the first is still pending, the cached collection is the second
    snapshot: it ends with the first placeholder. *)
Theorem second_mutation_keeps_first_placeholder (u : string)
    (med1 med2 : NewMedication.t) (e1 e2 : Entropy)
    (insert1 : Response Medication.t) (message : string) (w : World) :
  u ≠ "" ->
  let k := medicationsKey (Some u) in
  let p1 := tempMed med1 e1 u in
  let p2 := tempMed med2 e2 u in
  let first_applied := exec (onMutate (Some u) med1 e1 (mret tt)) w in
  let first_sent := exec (mutationFn (Some u) med1 insert1 (mret tt)) first_applied in
  let second := mutate (useAddMedication (Some u)) med2 e2 (Failure message) (mret tt) (mret tt) in
  let first_pending :=
    exec (mutationFn (Some u) med1 insert1 (second;; mret tt)) first_applied in
  eval (onMutate (Some u) med1 e1 (mret tt)) w =
    Some {| previousMedications := dataOf k w |} /\
  eval (onMutate (Some u) med2 e2 (mret tt)) first_sent =
    Some {| previousMedications := Some (apply_placeholder (dataOf k w) p1) |} /\
  dataOf k (exec (onMutate (Some u) med2 e2 (mret tt)) first_sent) =
    Some (apply_placeholder (dataOf k w) p1 ++ [p2]) /\
  eval second first_sent = Err (RemoteError message) /\
  dataOf k first_pending = Some (apply_placeholder (dataOf k w) p1) /\
  exists old, dataOf k first_pending = Some (old ++ [p1]).
Proof.
  intros Hu k p1 p2 first_applied first_sent second first_pending.
  assert (Hfs : first_sent = exec (log (RemoteInsert med1 u)) first_applied)
    by (unfold first_sent; by rewrite exec_mutationFn).
  assert (Hsent : dataOf k first_sent = Some (apply_placeholder (dataOf k w) p1)).
  { rewrite Hfs.
    change (dataOf k (exec (log (RemoteInsert med1 u)) first_applied))
      with (dataOf k first_applied).
    by apply dataOf_onMutate_alone. }
  assert (Hpending : dataOf k first_pending = Some (apply_placeholder (dataOf k w) p1)).
  { unfold first_pending. rewrite exec_mutationFn by done.
    rewrite exec_bind, exec_ret.
    rewrite <- Hfs.
    pose proof (lookup_mutate u med2 e2 (Failure message) first_sent Hu) as Hq.
    cbv zeta in Hq. fold k second in Hq. rewrite Hsent in Hq.
    unfold dataOf. by rewrite Hq. }
  split; [by apply eval_onMutate_alone|].
  split; [unfold k; rewrite eval_onMutate_alone by done; fold k; by rewrite Hsent|].
  split; [unfold k; rewrite dataOf_onMutate_alone by done; fold k; by rewrite Hsent|].
  split; [unfold second; rewrite eval_mutate; by apply eval_mutationFn|].
  split; [done|].
  exists (default [] (dataOf k w)). rewrite Hpending. f_equal.
  unfold apply_placeholder. by destruct (dataOf k w).
Qed.

Lemma second_mutation_keeps_first_placeholder_witness :
  dataOf (medicationsKey (Some "u1"))
    (exec (mutationFn (Some "u1") aspirin (Data server_row)
             (mutate (useAddMedication (Some "u1")) ibuprofen entropy2 (Failure "insert rejected")
                (mret tt) (mret tt);; mret tt))
          (exec (onMutate (Some "u1") aspirin entropy1 (mret tt)) fetched_client))
  = Some (apply_placeholder (dataOf (medicationsKey (Some "u1")) fetched_client)
            (tempMed aspirin entropy1 "u1")).
Proof.
  refine (proj1 (proj2 (proj2 (proj2 (proj2
    (second_mutation_keeps_first_placeholder "u1" aspirin ibuprofen entropy1
       entropy2 (Data server_row) "insert rejected" fetched_client _)))))).
  discriminate.
Defined.

(** ** Freshness *)

Lemma selects_app (l1 l2 : list Call) :
  selects (l1 ++ l2) = (selects l1 + selects l2)%nat.
Proof.
  induction l1 as [|c l1 IH]; [done|]. destruct c; simpl; by rewrite ?IH.
Qed.

Lemma elapsed_nonneg (evs : list Event) : 0 <= elapsed evs.
Proof. induction evs as [|[dt| |] evs IH]; simpl; lia. Qed.

Lemma isStale_earlier (q : Query) (t t' : Z) :
  t <= t' -> isStale staleTime q t' = false -> isStale staleTime q t = false.
Proof.
  unfold isStale. intros Ht. destruct (q_data q); [|done].
  destruct (q_isInvalidated q); [done|]. simpl.
  rewrite !bool_decide_eq_false. lia.
Qed.

Lemma load_at_most_one_select currentUserId authLoading w :
  exists calls,
    trace (exec (load (useGetMedications currentUserId authLoading)) w) =
    trace w ++ calls /\
    (selects calls <= 1)%nat.
Proof.
  assert (Hstart : exists calls,
             trace (exec (startFetch (useGetMedications currentUserId authLoading)) w) =
             trace w ++ calls /\
             (selects calls <= 1)%nat).
  { unfold startFetch; hooks; unfold queryFn, set_fetch.
    destruct (truthy currentUserId) as [user|]; msimpl.
    - exists [RemoteSelect user]. split; [done | simpl; lia].
    - exists []. split; [by rewrite app_nil_r | simpl; lia]. }
  assert (Hnone : exists calls, trace w = trace w ++ calls /\ (selects calls <= 1)%nat).
  { exists []. split; [by rewrite app_nil_r | simpl; lia]. }
  unfold load.
  destruct (QueryOptions.enabled (useGetMedications currentUserId authLoading));
    [|done].
  hooks.
  msimpl. destruct (cache w !! medicationsKey currentUserId) as [q|]; [|done].
  destruct (q_fetch q); [done|].
  by destruct (isStale staleTime q (now w)).
Qed.

(** While the cached collection is fresh, time and reads change nothing but
    the clock. *)
Lemma reads_of_fresh_collection (u : string) (q : Query) (evs : list Event) :
  u ≠ "" ->
  q_fetch q = None ->
  Forall (read_by (Some u)) evs ->
  forall w,
    cache w !! medicationsKey (Some u) = Some q ->
    isStale staleTime q (now w + elapsed evs) = false ->
    exec (run evs) w =
    {| cache := cache w; fetchSeq := fetchSeq w;
       now := now w + elapsed evs; trace := trace w |}.
Proof.
  intros Hu Hf. induction 1 as [|ev evs Hev _ IH]; intros w Hq Hs.
  - destruct w. simpl. by rewrite Z.add_0_r.
  - cbn [run]. rewrite exec_bind.
    pose proof (elapsed_nonneg evs) as Hnn.
    destruct ev as [dt|currentUserId authLoading|]; [| |done].
    + cbn [elapsed] in *. rewrite (IH (exec (step (Tick dt)) w)); cbn; [|done|].
      * by rewrite Z.add_assoc.
      * by rewrite <- Z.add_assoc.
    + cbn [elapsed read_by] in *. subst currentUserId.
      assert (Hl : exec (step (Load (Some u) authLoading)) w = w).
      { cbn [step]. rewrite exec_bind, exec_ret. unfold exec.
        destruct authLoading.
        - rewrite load_disabled; [done|]. hooks. by rewrite andb_false_r.
        - rewrite (load_fresh u q); [done..|].
          apply (isStale_earlier q _ (now w + elapsed evs)); [lia | done]. }
      rewrite Hl. by apply IH.
Qed.

(** C9: reads of one collection key.  The first read sends at most one
    select.  Once that fetch has completed successfully, any number of
    further reads spread over less than [staleTime], which is five
    minutes, make no call at all: the selects sent in total are those of
    the first read, at most one, and the cached collection stays the
    fetched one. *)
Theorem reads_within_staleTime (u : string) (token : nat) (d0 : N)
    (rows : list Medication.t) (evs : list Event) (w : World) :
  u ≠ "" ->
  let k := medicationsKey (Some u) in
  let first_read := exec (load (useGetMedications (Some u) false)) w in
  (q ← cache first_read !! k; q_fetch q) = Some token ->
  let fetched := exec (tick d0;; fetchCompleted k token (Data rows)) first_read in
  Forall (read_by (Some u)) evs ->
  elapsed evs < staleTime ->
  let later := exec (run evs) fetched in
  staleTime = 300000 /\
  (selects (trace first_read) <= S (selects (trace w)))%nat /\
  trace later = trace fetched /\
  selects (trace later) = selects (trace first_read) /\
  cache later = cache fetched /\
  dataOf k later = Some rows.
Proof.
  intros Hu k first_read Hflight fetched Hevs Hwindow later.
  destruct (cache first_read !! k) as [q0|] eqn:Hq0; [|done]. simpl in Hflight.
  assert (Hfetched : fetched =
    {| cache := <[k := {| q_data := Some rows;
                          q_dataUpdatedAt := now first_read + Z.of_N d0;
                          q_isInvalidated := false; q_fetch := None |}]>
                  (cache first_read);
       fetchSeq := fetchSeq first_read;
       now := now first_read + Z.of_N d0;
       trace := trace first_read ++ [FetchCompleted k token true] |}).
  { unfold fetched. rewrite exec_bind.
    by rewrite (fetchCompleted_applies k token q0 rows (exec (tick d0) first_read)). }
  assert (Hlater : later =
    {| cache := cache fetched; fetchSeq := fetchSeq fetched;
       now := now fetched + elapsed evs; trace := trace fetched |}).
  { unfold later.
    apply (reads_of_fresh_collection u
             {| q_data := Some rows;
                q_dataUpdatedAt := now first_read + Z.of_N d0;
                q_isInvalidated := false; q_fetch := None |}); [done..| |].
    - rewrite Hfetched. cbn [cache]. apply lookup_insert_eq.
    - rewrite Hfetched. unfold isStale. cbn. rewrite bool_decide_eq_false. lia. }
  destruct (load_at_most_one_select (Some u) false w) as (calls & Hcalls & Hle).
  fold first_read in Hcalls.
  split; [reflexivity|].
  split; [rewrite Hcalls, selects_app; lia|].
  rewrite Hlater. cbn [trace cache].
  split; [done|].
  split; [rewrite Hfetched; cbn [trace]; rewrite selects_app; simpl; lia|].
  split; [done|].
  unfold dataOf. cbn [cache]. rewrite Hfetched. cbn [cache].
  by rewrite lookup_insert_eq.
Qed.

Lemma reads_within_staleTime_witness :
  selects (trace (exec (run five_reads)
     (exec (tick 120%N;; fetchCompleted (medicationsKey (Some "u1")) 0 (Data [server_row]))
        (exec (load (useGetMedications (Some "u1") false)) fresh_client)))) = 1%nat.
Proof.
  refine (eq_trans (proj1 (proj2 (proj2 (proj2
    (reads_within_staleTime "u1" 0 120%N [server_row] five_reads fresh_client
       _ _ _ _))))) _).
  - discriminate.
  - reflexivity.
  - repeat constructor.
  - reflexivity.
  - reflexivity.
Defined.

(** ** Fetches that complete while a mutation is suspended *)

Lemma startFetch_cases currentUserId authLoading w :
  exists f calls,
    exec (startFetch (useGetMedications currentUserId authLoading)) w =
    {| cache :=
         <[medicationsKey currentUserId :=
             match cache w !! medicationsKey currentUserId with
             | Some q => {| q_data := q_data q; q_dataUpdatedAt := q_dataUpdatedAt q;
                            q_isInvalidated := q_isInvalidated q; q_fetch := f |}
             | None => {| q_data := None; q_dataUpdatedAt := 0;
                          q_isInvalidated := false; q_fetch := f |}
             end]> (cache w);
       fetchSeq := S (fetchSeq w);
       now := now w;
       trace := trace w ++ calls |} /\
    (f = None \/ f = Some (fetchSeq w)) /\
    Forall (fun c => forall k, ~ applied_on k c) calls.
Proof.
  unfold startFetch; hooks; unfold queryFn, set_fetch.
  destruct (truthy currentUserId) as [user|]; msimpl.
  - exists (Some (fetchSeq w)), [RemoteSelect user]. split; [|split; [by right|]].
    + by destruct (cache w !! medicationsKey currentUserId).
    + constructor; [|done]. by intros k [token ?].
  - exists None, []. split; [|split; [by left | done]].
    rewrite app_nil_r.
    destruct (cache w !! medicationsKey currentUserId);
      rewrite lookup_insert_eq; cbn; by rewrite insert_insert_eq.
Qed.

Lemma load_cases currentUserId authLoading w :
  exec (load (useGetMedications currentUserId authLoading)) w = w \/
  exec (load (useGetMedications currentUserId authLoading)) w =
  exec (startFetch (useGetMedications currentUserId authLoading)) w.
Proof.
  unfold load.
  destruct (QueryOptions.enabled (useGetMedications currentUserId authLoading));
    [|by left].
  hooks.
  msimpl. destruct (cache w !! medicationsKey currentUserId) as [q|]; [|by right].
  destruct (q_fetch q); [by left|].
  destruct (isStale staleTime q (now w)); [by right | by left].
Qed.

Lemma fetchCompleted_cases k token answer w :
  ((q ← cache w !! k; q_fetch q) ≠ Some token /\
   exec (fetchCompleted k token answer) w =
   {| cache := cache w; fetchSeq := fetchSeq w; now := now w;
      trace := trace w ++ [FetchCompleted k token false] |}) \/
  ((q ← cache w !! k; q_fetch q) = Some token /\
   exists q',
     exec (fetchCompleted k token answer) w =
     {| cache := <[k := q']> (cache w); fetchSeq := fetchSeq w; now := now w;
        trace := trace w ++ [FetchCompleted k token true] |}).
Proof.
  destruct (decide ((q ← cache w !! k; q_fetch q) = Some token)) as [Heq|Hne].
  - right. split; [done|].
    unfold fetchCompleted, set_fetch. msimpl.
    destruct (cache w !! k) as [q|] eqn:Hq; [|done]. simpl in Heq.
    destruct (decide (q_fetch q = Some token)); [|done].
    destruct (queryFn_resume answer); msimpl; [by eexists|].
    rewrite Hq. by eexists.
  - left. split; [done|]. by apply fetchCompleted_dropped.
Qed.

Lemma step_shielded (n : nat) (k : QueryKey) data (ev : Event) (w : World) :
  match ev with
  | Completion k' token _ => k' = k -> (token < n)%nat
  | _ => True
  end ->
  shielded n k data w ->
  shielded n k data (exec (step ev) w) /\
  exists calls,
    trace (exec (step ev) w) = trace w ++ calls /\
    Forall (fun c => ~ applied_on k c) calls.
Proof.
  intros Hev (Hn & Hd & Htok).
  assert (Hsame : shielded n k data w /\
            exists calls, trace w = trace w ++ calls /\
                          Forall (fun c => ~ applied_on k c) calls).
  { split; [done|]. exists []. by rewrite app_nil_r. }
  destruct ev as [dt|currentUserId authLoading|k' token answer]; cbn [step].
  - split; [done|]. exists []. by rewrite app_nil_r.
  - rewrite exec_bind, exec_ret.
    destruct (load_cases currentUserId authLoading w) as [->| ->]; [done|].
    destruct (startFetch_cases currentUserId authLoading w) as (f & calls & -> & Hf & Hcalls).
    split.
    + split; [cbn; lia|]. unfold dataOf. cbn [cache fetchSeq].
      destruct (decide (medicationsKey currentUserId = k)) as [->|Hne].
      * rewrite lookup_insert_eq. split.
        -- rewrite <- Hd. unfold dataOf. by destruct (cache w !! k).
        -- intros q token' [= <-] Hq.
           assert (f = Some token') as -> by (by destruct (cache w !! k)).
           destruct Hf as [?|[= ->]]; [done | lia].
      * rewrite lookup_insert_ne by done. split; [done|]. apply Htok.
    + exists calls. split; [done|].
      eapply Forall_impl; [exact Hcalls|]. intros c Hc. apply Hc.
  - destruct (fetchCompleted_cases k' token answer w)
      as [[Hne ->]|[Heq (q' & ->)]].
    + split; [done|]. eexists. split; [done|].
      constructor; [|done]. by intros [token' ?].
    + destruct (decide (k' = k)) as [->|Hk].
      * specialize (Hev eq_refl).
        destruct (cache w !! k) as [q|] eqn:Hq; [|done]. simpl in Heq.
        specialize (Htok q token eq_refl Heq). lia.
      * split.
        -- split; [done|]. unfold dataOf. cbn [cache].
           rewrite lookup_insert_ne by done. split; [done|]. apply Htok.
        -- eexists. split; [done|]. constructor; [|done].
           intros [token' ?]. congruence.
Qed.

Lemma run_shielded (n : nat) (k : QueryKey) data (evs : list Event) :
  Forall (fun ev => match ev with
                    | Completion k' token _ => k' = k -> (token < n)%nat
                    | _ => True
                    end) evs ->
  forall w,
    shielded n k data w ->
    shielded n k data (exec (run evs) w) /\
    exists calls,
      trace (exec (run evs) w) = trace w ++ calls /\
      Forall (fun c => ~ applied_on k c) calls.
Proof.
  induction 1 as [|ev evs Hev _ IH]; intros w Hw.
  - split; [done|]. exists []. by rewrite app_nil_r.
  - cbn [run]. rewrite exec_bind.
    destruct (step_shielded n k data ev w Hev Hw) as [Hw1 (c1 & Ht1 & Hc1)].
    destruct (IH _ Hw1) as [Hw2 (c2 & Ht2 & Hc2)].
    split; [done|]. exists (c1 ++ c2). split.
    + by rewrite Ht2, Ht1, app_assoc.
    + by apply Forall_app.
Qed.

Lemma started_before_bound (w : World) (k : QueryKey) (evs : list Event) :
  Forall (started_before w k) evs ->
  Forall (fun ev => match ev with
                    | Completion k' token _ => k' = k -> (token < fetchSeq w)%nat
                    | _ => True
                    end) evs.
Proof. intros H. eapply Forall_impl; [exact H|]. by intros [| |]. Qed.

Lemma shielded_cancelQueries (k : QueryKey) (w : World) :
  shielded (fetchSeq w) k (dataOf k w) (exec (cancelQueries k) w).
Proof.
  split; [done|]. split; [apply dataOf_cancelQueries|].
  intros q token. rewrite cache_cancelQueries, lookup_alter_eq.
  destruct (cache w !! k); [|done]. by intros [= <-].
Qed.

Lemma shielded_setQueryData (n : nat) (k : QueryKey) data
    (new : list Medication.t) (w : World) :
  shielded n k data w ->
  shielded n k (Some new) (exec (setQueryData k (Value (Some new))) w).
Proof.
  intros (Hn & Hd & Htok). split; [done|]. split.
  - by rewrite dataOf_setQueryData.
  - intros q token. rewrite cache_setQueryData. cbn [functionalUpdate].
    rewrite lookup_insert_eq. intros [= <-]. cbn [q_fetch].
    destruct (cache w !! k) as [q|] eqn:Hq; [|done]. by apply Htok.
Qed.

(** C5: a mutation of a resolved user, with other flows running while the
    cancel is awaited ([es1]) and while the insert is awaited ([es2]):
    time passing, reads that may start new fetches, completions on other
    keys, and completions on the mutation's key of fetches started before
    the mutation began.  The cancel comes first and leaves no fetch in
    flight on the key; the snapshot read and the write of the optimistic
    collection are consecutive calls, so nothing runs between them; no
    completion is applied to the key during either await; the snapshot is
    the collection cached when the mutation began; and the optimistic
    collection is still cached when the insert is answered, that is,
    until the settle callbacks run. *)
Theorem cancelled_fetch_cannot_overwrite (u : string) (newMed : NewMedication.t)
    (e : Entropy) (insert : Response Medication.t) (es1 es2 : list Event)
    (w : World) :
  u ≠ "" ->
  let k := medicationsKey (Some u) in
  Forall (started_before w k) (es1 ++ es2) ->
  let optimistic := Some (apply_placeholder (dataOf k w) (tempMed newMed e u)) in
  let cancelled := exec (cancelQueries k) w in
  let applied := exec (onMutate (Some u) newMed e (run es1)) w in
  let pending := exec (mutationFn (Some u) newMed insert (run es2)) applied in
  (q ← cache cancelled !! k; q_fetch q) = None /\
  (exists others,
      trace (exec (run es1) cancelled) = trace w ++ [CancelQueries k] ++ others /\
      trace applied =
        trace w ++ [CancelQueries k] ++ others ++
        [GetQueryData k; SetQueryData k optimistic] /\
      Forall (fun c => ~ applied_on k c) others) /\
  eval (onMutate (Some u) newMed e (run es1)) w =
    Some {| previousMedications := dataOf k w |} /\
  dataOf k applied = optimistic /\
  (exists others,
      trace pending = trace applied ++ [RemoteInsert newMed u] ++ others /\
      Forall (fun c => ~ applied_on k c) others) /\
  dataOf k pending = optimistic.
Proof.
  intros Hu k Hevs optimistic cancelled applied pending.
  apply Forall_app in Hevs as [Hes1 Hes2].
  apply started_before_bound in Hes1, Hes2.
  pose proof (shielded_cancelQueries k w) as Hc. fold cancelled in Hc.
  destruct (run_shielded _ _ _ es1 Hes1 cancelled Hc)
    as [Hs (others1 & Ht1 & Ho1)].
  assert (Hsnap : at_snapshot (Some u) (run es1) w = exec (run es1) cancelled)
    by reflexivity.
  assert (Hdata : dataOf k (exec (run es1) cancelled) = dataOf k w) by apply Hs.
  assert (Happlied : applied =
            exec (setQueryData k (Value optimistic))
                 (exec (getQueryData k) (exec (run es1) cancelled))).
  { unfold applied. rewrite exec_onMutate by done. fold k.
    by rewrite Hsnap, Hdata. }
  assert (Ha : shielded (fetchSeq w) k optimistic applied).
  { rewrite Happlied. by apply (shielded_setQueryData _ _ (dataOf k w)). }
  assert (Hpending : pending =
            exec (run es2) (exec (log (RemoteInsert newMed u)) applied))
    by (unfold pending; by rewrite exec_mutationFn).
  destruct (run_shielded _ _ _ es2 Hes2
              (exec (log (RemoteInsert newMed u)) applied) Ha)
    as [Hp (others2 & Ht2 & Ho2)].
  split.
  { unfold cancelled. rewrite cache_cancelQueries, lookup_alter_eq.
    by destruct (cache w !! k). }
  assert (Ht1' : trace (exec (run es1) cancelled) =
                   trace w ++ [CancelQueries k] ++ others1).
  { rewrite Ht1. unfold cancelled. by rewrite trace_cancelQueries, <- app_assoc. }
  split.
  { exists others1. split; [done|split; [|done]].
    rewrite Happlied. autorewrite with mrun. cbn [functionalUpdate].
    rewrite Ht1'. by rewrite <- !app_assoc. }
  split.
  { rewrite eval_onMutate by done. fold k. by rewrite Hsnap, Hdata. }
  split; [apply Ha|].
  split.
  { exists others2. split; [|done]. rewrite Hpending, Ht2.
    by rewrite trace_log, <- app_assoc. }
  rewrite Hpending. apply Hp.
Qed.

Lemma cancelled_fetch_cannot_overwrite_witness :
  dataOf (medicationsKey (Some "u1"))
    (exec (mutationFn (Some "u1") aspirin (Data server_row)
             (run [Tick 40; Completion (medicationsKey (Some "u1")) 0 (Data [])]))
          (exec (onMutate (Some "u1") aspirin entropy1
                   (run [Load (Some "u2") false])) fetching_client))
  = Some (apply_placeholder (dataOf (medicationsKey (Some "u1")) fetching_client)
            (tempMed aspirin entropy1 "u1")).
Proof.
  refine (proj2 (proj2 (proj2 (proj2 (proj2
    (cancelled_fetch_cannot_overwrite "u1" aspirin entropy1 (Data server_row)
       [Load (Some "u2") false]
       [Tick 40; Completion (medicationsKey (Some "u1")) 0 (Data [])]
       fetching_client _ _)))))).
  - discriminate.
  - repeat constructor.
Defined.

(** * Further properties of the hooks *)

(** ** What is sent to the remote store *)

Lemma selected_users_app (l1 l2 : list Call) :
  selected_users (l1 ++ l2) = selected_users l1 ++ selected_users l2.
Proof.
  induction l1 as [|c l1 IH]; [done|]. destruct c; simpl; by rewrite ?IH.
Qed.

Lemma inserts_app (l1 l2 : list Call) :
  inserts (l1 ++ l2) = inserts l1 ++ inserts l2.
Proof.
  induction l1 as [|c l1 IH]; [done|]. destruct c; simpl; by rewrite ?IH.
Qed.

Lemma enabled_true (currentUserId : option string) (authLoading : bool) :
  QueryOptions.enabled (useGetMedications currentUserId authLoading) = true ->
  exists user, currentUserId = Some user /\ user ≠ "" /\ authLoading = false.
Proof.
  hooks. intros [Hf Hl]%andb_true_iff.
  apply negb_true_iff in Hf, Hl. unfold falsy in Hf.
  destruct currentUserId as [user|]; [|done].
  exists user. by destruct (decide (user = "")).
Qed.

Lemma load_calls (currentUserId : option string) (authLoading : bool) (w : World) :
  exists calls,
    trace (exec (load (useGetMedications currentUserId authLoading)) w) =
    trace w ++ calls /\
    (calls = [] \/
     exists user, calls = [RemoteSelect user] /\ currentUserId = Some user /\
                  user ≠ "" /\ authLoading = false).
Proof.
  assert (Hnone : exists calls, trace w = trace w ++ calls /\
            (calls = [] \/
             exists user, calls = [RemoteSelect user] /\ currentUserId = Some user /\
                          user ≠ "" /\ authLoading = false)).
  { exists []. split; [by rewrite app_nil_r | by left]. }
  destruct (QueryOptions.enabled (useGetMedications currentUserId authLoading))
    eqn:Hen; [|unfold exec; by rewrite load_disabled].
  destruct (enabled_true _ _ Hen) as (user & -> & Hu & ->).
  destruct (load_cases (Some user) false w) as [->| ->]; [done|].
  rewrite exec_startFetch by done. cbn [trace]. eauto 10.
Qed.

Lemma step_calls (ev : Event) (w : World) :
  exists calls,
    trace (exec (step ev) w) = trace w ++ calls /\
    inserts calls = [] /\
    forall user, In user (selected_users calls) ->
                 user ≠ "" /\ ev = Load (Some user) false.
Proof.
  destruct ev as [dt|currentUserId authLoading|k token answer]; cbn [step].
  - exists []. split; [by rewrite app_nil_r | done].
  - rewrite exec_bind, exec_ret.
    destruct (load_calls currentUserId authLoading w)
      as (calls & Ht & [->|(user & -> & -> & Hu & ->)]).
    + exists []. by rewrite <- Ht.
    + eexists. split; [done|]. split; [done|].
      intros user' [<-|[]]. done.
  - destruct (fetchCompleted_cases k token answer w) as [[_ ->]|[_ (q' & ->)]];
      eexists; (split; [done|]); done.
Qed.

Lemma run_calls (evs : list Event) (w : World) :
  exists calls,
    trace (exec (run evs) w) = trace w ++ calls /\
    inserts calls = [] /\
    forall user, In user (selected_users calls) ->
                 user ≠ "" /\ In (Load (Some user) false) evs.
Proof.
  revert w. induction evs as [|ev evs IH]; intros w.
  - exists []. split; [by rewrite app_nil_r | done].
  - cbn [run]. rewrite exec_bind.
    destruct (step_calls ev w) as (c1 & Ht1 & Hi1 & Hs1).
    destruct (IH (exec (step ev) w)) as (c2 & Ht2 & Hi2 & Hs2).
    exists (c1 ++ c2). split; [by rewrite Ht2, Ht1, app_assoc|].
    split; [by rewrite inserts_app, Hi1, Hi2|].
    intros user. rewrite selected_users_app, in_app_iff. intros [Hin|Hin].
    + destruct (Hs1 user Hin) as [Hu ->]. split; [done | by left].
    + destruct (Hs2 user Hin) as [Hu Hev]. split; [done | by right].
Qed.

(** X1: reads, fetch completions and passing time, in any number and
    order, never send an insert, and they send a select to the remote
    store only for a user whose identifier is resolved and not empty and
    who read while the session was not loading. *)
Theorem selects_only_for_resolved_users (evs : list Event) (w : World) :
  let w' := exec (run evs) w in
  inserts (trace w') = inserts (trace w) /\
  exists new,
    selected_users (trace w') = selected_users (trace w) ++ new /\
    forall user, In user new -> user ≠ "" /\ In (Load (Some user) false) evs.
Proof.
  intros w'. destruct (run_calls evs w) as (calls & Ht & Hi & Hs).
  fold w' in Ht. rewrite Ht, inserts_app, selected_users_app, Hi.
  split; [by rewrite app_nil_r|]. by exists (selected_users calls).
Qed.

(** ** Fetches that fail, and the edge of the freshness window *)



(** X3: the edge of the freshness window.  For a fetched collection that
    is not invalidated and not being fetched, a read of its user changes
    nothing while less than [staleTime] has passed since the last write,
    and sends a select as soon as [staleTime] has passed, the very
    millisecond included. *)
Theorem staleness_boundary (u : string) (q : Query) (rows : list Medication.t)
    (w : World) :
  u ≠ "" ->
  cache w !! medicationsKey (Some u) = Some q ->
  q_fetch q = None ->
  q_data q = Some rows ->
  q_isInvalidated q = false ->
  let read := load (useGetMedications (Some u) false) in
  (now w < q_dataUpdatedAt q + 300000 -> read w = (Fresh, w)) /\
  (q_dataUpdatedAt q + 300000 <= now w ->
   eval read w = Fetching /\
   trace (exec read w) = trace w ++ [RemoteSelect u] /\
   dataOf (medicationsKey (Some u)) (exec read w) = Some rows).
Proof.
  intros Hu Hq Hf Hd Hi read.
  assert (Hs : isStale staleTime q (now w) =
               bool_decide (q_dataUpdatedAt q + 300000 <= now w)).
  { unfold isStale. by rewrite Hd, Hi. }
  split; intros Ht.
  - apply (load_fresh u q); [done..|]. rewrite Hs. apply bool_decide_eq_false. lia.
  - assert (Hl : read w = (Fetching, exec (startFetch (useGetMedications (Some u) false)) w)).
    { apply (load_refetches u q); [done..|]. rewrite Hs. by apply bool_decide_eq_true. }
    unfold eval, exec at 1 2. rewrite Hl. cbn [fst snd].
    rewrite exec_startFetch by done. cbn [trace]. repeat split.
    unfold dataOf. cbn [cache]. by rewrite lookup_insert_eq, Hq.
Qed.

Lemma staleness_boundary_witness :
  trace (exec (load (useGetMedications (Some "u1") false)) fetched_client) =
  trace fetched_client ++ [RemoteSelect "u1"].
Proof.
  refine (proj1 (proj2 (proj2
    (staleness_boundary "u1" _ [server_row] fetched_client _ _ _ _ _) _))).
  - discriminate.
  - reflexivity.
  - reflexivity.
  - reflexivity.
  - reflexivity.
  - simpl. lia.
Defined.

(** ** What a mutation sends and returns *)

Lemma truthy_cases (currentUserId : option string) :
  (truthy currentUserId = None /\ falsy currentUserId = true) \/
  (exists user, currentUserId = Some user /\ user ≠ "" /\
                truthy currentUserId = Some user).
Proof.
  unfold truthy, falsy. destruct currentUserId as [user|]; [|by left].
  destruct (decide (user = "")); [by left | right; eauto].
Qed.

(** X4: what one call of [mutate] sends and returns, whatever the cache
    holds and whatever reads, completions and ticks run during its two
    awaits.  For a resolved user exactly one insert is sent, carrying the
    caller's fields and the user's identifier, and the caller gets the
    remote store's answer: the inserted record, or the remote error with
    its message.  Without a resolved user, an empty identifier included,
    no insert is sent and the caller gets the authentication error. *)
Theorem mutation_sends_one_insert (currentUserId : option string)
    (newMed : NewMedication.t) (e : Entropy) (insert : Response Medication.t)
    (es1 es2 : list Event) (w : World) :
  let call := mutate (useAddMedication currentUserId) newMed e insert
                (run es1) (run es2) in
  match truthy currentUserId with
  | Some user =>
      inserts (trace (exec call w)) = inserts (trace w) ++ [(newMed, user)] /\
      eval call w = match insert with
                    | Data data => Ok data
                    | Failure message => Err (RemoteError message)
                    end
  | None =>
      inserts (trace (exec call w)) = inserts (trace w) /\
      eval call w = Err (JsError "User not authenticated.")
  end.
Proof.
  intros call. unfold call. rewrite eval_mutate, exec_mutate. cbv zeta.
  destruct (truthy_cases currentUserId) as [[Ht Hf]|(user & -> & Hu & Ht)];
    rewrite Ht.
  - assert (He : exec (onMutate currentUserId newMed e (run es1)) w = w)
      by (unfold exec; by rewrite onMutate_unresolved).
    assert (Hv : eval (onMutate currentUserId newMed e (run es1)) w = None)
      by (unfold eval; by rewrite onMutate_unresolved).
    rewrite He, Hv. unfold mutationFn. rewrite Ht.
    rewrite exec_ret, eval_ret. cbn [settle]. hooks.
    unfold onError, onSettled. autorewrite with mrun.
    rewrite !inserts_app. cbn [inserts]. by rewrite !app_nil_r.
  - rewrite eval_mutationFn, exec_mutationFn by done.
    set (k := medicationsKey (Some user)).
    set (w1 := exec (onMutate (Some user) newMed e (run es1)) w).
    assert (Hw1 : inserts (trace w1) = inserts (trace w)).
    { unfold w1. rewrite exec_onMutate by done. autorewrite with mrun.
      unfold at_snapshot, await. rewrite exec_bind.
      destruct (run_calls es1 (exec (cancelQueries (medicationsKey (Some user))) w))
        as (c1 & -> & Hi1 & _).
      rewrite trace_cancelQueries, !inserts_app, Hi1. cbn [inserts].
      by rewrite !app_nil_r. }
    destruct (run_calls es2 (exec (log (RemoteInsert newMed user)) w1))
      as (c2 & Ht2 & Hi2 & _).
    split; [|by destruct insert].
    destruct insert as [data|message]; cbn [outcome settle]; hooks;
      unfold onError, onSettled; autorewrite with mrun;
      rewrite Ht2, trace_log, !inserts_app, Hi2, Hw1; cbn [inserts];
      by rewrite !app_nil_r.
Qed.

(** ** Rollback *)

(** X5: a failed mutation on a fetched collection is a round trip.  When
    a collection is cached for the user and nothing else runs, a mutation
    whose insert is rejected leaves every cached collection exactly as it
    was before the call, reports the remote error, and leaves the entry
    marked invalidated. *)
Theorem failed_mutation_round_trip (u : string) (newMed : NewMedication.t)
    (e : Entropy) (message : string) (old : list Medication.t) (w : World) :
  u ≠ "" ->
  let k := medicationsKey (Some u) in
  dataOf k w = Some old ->
  let call := mutate (useAddMedication (Some u)) newMed e (Failure message)
                (mret tt) (mret tt) in
  eval call w = Err (RemoteError message) /\
  dataOf k (exec (onMutate (Some u) newMed e (mret tt)) w) =
    Some (old ++ [tempMed newMed e u]) /\
  (forall k', dataOf k' (exec call w) = dataOf k' w) /\
  exists q, cache (exec call w) !! k = Some q /\ q_isInvalidated q = true.
Proof.
  intros Hu k Hold call.
  split; [unfold call; rewrite eval_mutate; by apply eval_mutationFn|].
  split; [unfold k; rewrite dataOf_onMutate_alone by done; fold k; by rewrite Hold|].
  pose proof (lookup_mutate u newMed e (Failure message) w Hu) as Hq.
  cbv zeta in Hq. fold k call in Hq. rewrite Hold in Hq.
  split; [|eexists; split; [exact Hq | done]].
  intros k'. destruct (decide (k' = k)) as [->|Hne].
  - unfold dataOf at 1. by rewrite Hq.
  - unfold dataOf.
    destruct (confined_mutate (Some u) newMed e (Failure message) (mret tt) (mret tt)
                (confined_ret _ _) (confined_ret _ _) w) as [Hc _].
    fold call in Hc. by rewrite (Hc k' Hne).
Qed.

Lemma failed_mutation_round_trip_witness :
  dataOf (medicationsKey (Some "u1"))
    (exec (mutate (useAddMedication (Some "u1")) aspirin entropy1
             (Failure "insert rejected") (mret tt) (mret tt))
          other_owner_client) = Some [server_row].
Proof.
  refine (proj1 (proj2 (proj2
    (failed_mutation_round_trip "u1" aspirin entropy1 "insert rejected"
       [server_row] other_owner_client _ _))) (medicationsKey (Some "u1"))).
  - discriminate.
  - reflexivity.
Defined.

(** X6: the rollback of an earlier mutation takes a later placeholder with
    it.  A second mutation starts while the insert of the first is
    awaited; both placeholders are cached, in call order.  When the first
    insert is then rejected while the second is still pending, the
    rollback writes the first snapshot back: if a collection was cached
    when the first mutation began, the cached collection is that
    collection again, without the placeholder of the second mutation; if
    none was cached, the rollback is ignored and both placeholders
    stay. *)
Theorem first_rollback_drops_second_placeholder (u : string)
    (med1 med2 : NewMedication.t) (e1 e2 : Entropy) (message : string)
    (w : World) :
  u ≠ "" ->
  let k := medicationsKey (Some u) in
  let p1 := tempMed med1 e1 u in
  let p2 := tempMed med2 e2 u in
  let second_started := onMutate (Some u) med2 e2 (mret tt);; mret tt in
  let both_pending :=
    exec (mutationFn (Some u) med1 (Failure message) second_started)
         (exec (onMutate (Some u) med1 e1 (mret tt)) w) in
  let first_settled :=
    exec (mutate (useAddMedication (Some u)) med1 e1 (Failure message)
            (mret tt) second_started) w in
  dataOf k both_pending = Some (apply_placeholder (dataOf k w) p1 ++ [p2]) /\
  dataOf k first_settled =
    match dataOf k w with
    | Some old => Some old
    | None => Some [p1; p2]
    end.
Proof.
  intros Hu k p1 p2 second_started both_pending first_settled.
  assert (Hboth : dataOf k both_pending =
                  Some (apply_placeholder (dataOf k w) p1 ++ [p2])).
  { unfold both_pending, second_started. rewrite exec_mutationFn by done.
    rewrite exec_bind, exec_ret. unfold k.
    rewrite dataOf_onMutate_alone by done. fold k.
    change (dataOf k (exec (log (RemoteInsert med1 u)) ?x)) with (dataOf k x).
    unfold k. rewrite dataOf_onMutate_alone by done. done. }
  split; [done|].
  unfold first_settled. rewrite exec_mutate. cbv zeta.
  rewrite eval_mutationFn, eval_onMutate_alone by done.
  fold k both_pending. cbn [outcome settle]. hooks.
  unfold onError, onSettled. fold k. autorewrite with mrun.
  cbn [mbind option_bind previousMedications functionalUpdate].
  rewrite Hboth. by destruct (dataOf k w).
Qed.

Lemma first_rollback_drops_second_placeholder_witness :
  dataOf (medicationsKey (Some "u1"))
    (exec (mutate (useAddMedication (Some "u1")) aspirin entropy1
             (Failure "insert rejected") (mret tt)
             (onMutate (Some "u1") ibuprofen entropy2 (mret tt);; mret tt))
          fetched_client)
  = Some [server_row].
Proof.
  refine (proj2
    (first_rollback_drops_second_placeholder "u1" aspirin ibuprofen entropy1
       entropy2 "insert rejected" fetched_client _)).
  discriminate.
Defined.

(** ** Mutations one after the other *)

Lemma dataOf_mutate (u : string) newMed e insert old w :
  u ≠ "" ->
  dataOf (medicationsKey (Some u)) w = Some old ->
  dataOf (medicationsKey (Some u))
    (exec (mutate (useAddMedication (Some u)) newMed e insert (mret tt) (mret tt)) w) =
  Some match insert with
       | Data _ => old ++ [tempMed newMed e u]
       | Failure _ => old
       end.
Proof.
  intros Hu Hold.
  pose proof (lookup_mutate u newMed e insert w Hu) as Hq. cbv zeta in Hq.
  unfold dataOf at 1. rewrite Hq, Hold. by destruct insert.
Qed.

Lemma mutation_insert_alone (u : string) newMed e insert w :
  u ≠ "" ->
  inserts (trace (exec (mutate (useAddMedication (Some u)) newMed e insert
                          (mret tt) (mret tt)) w)) =
  inserts (trace w) ++ [(newMed, u)].
Proof.
  intros Hu. pose proof (trace_mutate u newMed e insert w Hu) as Ht.
  cbv zeta in Ht. rewrite Ht, !inserts_app.
  destruct insert; cbn [inserts app]; by rewrite ?app_nil_r.
Qed.

(** X7: any number of mutations, each settled before the next starts and
    with no refetch in between, on a collection that is cached.  The
    cached collection is then the original collection, every record in
    its place, followed by the placeholders of exactly the mutations
    whose insert succeeded, in call order; one insert was sent per
    mutation, in call order, each with the user's identifier. *)
Theorem sequential_mutations_keep_confirmed_placeholders (u : string)
    (ms : list (NewMedication.t * Entropy * Response Medication.t))
    (old : list Medication.t) (w : World) :
  u ≠ "" ->
  let k := medicationsKey (Some u) in
  dataOf k w = Some old ->
  let w' := exec (mutations (Some u) ms) w in
  dataOf k w' = Some (old ++ confirmed_placeholders u ms) /\
  inserts (trace w') = inserts (trace w) ++ map (fun m => (m.1.1, u)) ms.
Proof.
  intros Hu k. revert old w.
  induction ms as [|[[newMed e] insert] ms IH]; intros old w Hold w'.
  - unfold w'. cbn. by rewrite !app_nil_r.
  - unfold w'. cbn [mutations]. rewrite exec_bind.
    set (w1 := exec (mutate (useAddMedication (Some u)) newMed e insert
                       (mret tt) (mret tt)) w).
    pose proof (dataOf_mutate u newMed e insert old w Hu Hold) as H1.
    fold k w1 in H1.
    pose proof (mutation_insert_alone u newMed e insert w Hu) as Hi1.
    fold w1 in Hi1.
    destruct (IH _ w1 H1) as [Hd Hi]. rewrite Hd, Hi, Hi1. split.
    + f_equal. destruct insert; cbn [confirmed_placeholders]; [|done].
      by rewrite <- app_assoc.
    + cbn [map fst]. by rewrite <- app_assoc.
Qed.

Lemma sequential_mutations_keep_confirmed_placeholders_witness :
  dataOf (medicationsKey (Some "u1"))
    (exec (mutations (Some "u1")
             [(aspirin, entropy1, Failure "insert rejected");
              (ibuprofen, entropy2, Data server_row)]) fetched_client)
  = Some ([server_row] ++ [tempMed ibuprofen entropy2 "u1"]).
Proof.
  refine (proj1
    (sequential_mutations_keep_confirmed_placeholders "u1"
       [(aspirin, entropy1, Failure "insert rejected");
        (ibuprofen, entropy2, Data server_row)] [server_row] fetched_client _ _)).
  - discriminate.
  - reflexivity.
Defined.

(** ** The owner of the cached records *)

Lemma dataOf_load currentUserId authLoading (k : QueryKey) (w : World) :
  dataOf k (exec (load (useGetMedications currentUserId authLoading)) w) = dataOf k w.
Proof.
  destruct (load_cases currentUserId authLoading w) as [->| ->]; [done|].
  destruct (startFetch_cases currentUserId authLoading w) as (f & calls & -> & _).
  unfold dataOf. cbn [cache].
  destruct (decide (medicationsKey currentUserId = k)) as [->|Hne].
  - rewrite lookup_insert_eq. by destruct (cache w !! k).
  - by rewrite lookup_insert_ne.
Qed.

Lemma dataOf_fetchCompleted (k : QueryKey) (token : nat)
    (answer : Response (list Medication.t)) (k' : QueryKey) (w : World) :
  dataOf k' (exec (fetchCompleted k token answer) w) = dataOf k' w \/
  (k' = k /\ exists rows,
      answer = Data rows /\
      dataOf k' (exec (fetchCompleted k token answer) w) = Some rows).
Proof.
  unfold fetchCompleted, set_fetch. msimpl.
  destruct (cache w !! k) as [q|] eqn:Hq; [|by left].
  destruct (decide (q_fetch q = Some token)); [|by left].
  destruct (decide (k' = k)) as [->|Hne].
  - destruct answer as [rows|message]; cbn [queryFn_resume]; msimpl.
    + right. split; [done|]. exists rows. split; [done|].
      unfold dataOf. cbn [cache]. by rewrite lookup_insert_eq.
    + left. rewrite Hq. unfold dataOf. cbn [cache].
      by rewrite lookup_insert_eq, Hq.
  - left. destruct answer as [rows|message]; cbn [queryFn_resume]; msimpl;
      rewrite ?Hq; unfold dataOf; cbn [cache]; by rewrite lookup_insert_ne.
Qed.

Lemma run_owned (user : string) (k : QueryKey) (evs : list Event) :
  Forall (answers_owned_by user k) evs ->
  forall w,
    (forall l, dataOf k w = Some l -> owned_by user l) ->
    forall l, dataOf k (exec (run evs) w) = Some l -> owned_by user l.
Proof.
  induction 1 as [|ev evs Hev _ IH]; intros w Hw; [done|].
  cbn [run]. rewrite exec_bind. apply IH.
  destruct ev as [dt|currentUserId authLoading|k' token answer]; cbn [step].
  - done.
  - rewrite exec_bind, exec_ret. intros l. rewrite dataOf_load. apply Hw.
  - intros l.
    destruct (dataOf_fetchCompleted k' token answer k w)
      as [->|[-> (rows & -> & ->)]]; [apply Hw|].
    intros [= <-]. by apply Hev.
Qed.

(** X8: the records cached under a user's key all belong to that user, and
    a mutation keeps it so.  If every cached record of the user's
    collection has the user's identifier as [user_id], and every fetch
    that completes on the key during the two awaits brings rows of that
    user only (the select filters on [user_id]), then the same holds
    after the speculative apply and after settle, on success and on
    failure. *)
Theorem collection_stays_owned (u : string) (newMed : NewMedication.t)
    (e : Entropy) (insert : Response Medication.t) (es1 es2 : list Event)
    (w : World) :
  u ≠ "" ->
  let k := medicationsKey (Some u) in
  (forall l, dataOf k w = Some l -> owned_by u l) ->
  Forall (answers_owned_by u k) (es1 ++ es2) ->
  let applied := exec (onMutate (Some u) newMed e (run es1)) w in
  let settled := exec (mutate (useAddMedication (Some u)) newMed e insert
                         (run es1) (run es2)) w in
  (forall l, dataOf k applied = Some l -> owned_by u l) /\
  (forall l, dataOf k settled = Some l -> owned_by u l).
Proof.
  intros Hu k Hw Hevs applied settled.
  apply Forall_app in Hevs as [Hes1 Hes2].
  set (snapshot := dataOf k (at_snapshot (Some u) (run es1) w)).
  assert (Hsnap : forall l, snapshot = Some l -> owned_by u l).
  { unfold snapshot, at_snapshot, await. rewrite exec_bind.
    apply (run_owned u k es1 Hes1). intros l. rewrite dataOf_cancelQueries.
    apply Hw. }
  assert (Happlied : forall l, dataOf k applied = Some l -> owned_by u l).
  { intros l. unfold applied, k. rewrite dataOf_onMutate by done.
    fold k snapshot. intros [= <-]. unfold apply_placeholder.
    destruct snapshot as [old|].
    - apply Forall_app. split; [by apply Hsnap | by repeat constructor].
    - by repeat constructor. }
  split; [done|].
  assert (Hpending : forall l,
            dataOf k (exec (mutationFn (Some u) newMed insert (run es2)) applied)
            = Some l -> owned_by u l).
  { rewrite exec_mutationFn by done. by apply (run_owned u k es2 Hes2). }
  intros l. unfold settled. rewrite exec_mutate. cbv zeta.
  rewrite eval_mutationFn, eval_onMutate by done. fold k snapshot applied.
  destruct insert as [data|message]; cbn [outcome settle]; hooks;
    unfold onError, onSettled; fold k; autorewrite with mrun.
  - apply Hpending.
  - cbn [mbind option_bind previousMedications functionalUpdate].
    destruct snapshot as [old|]; [|apply Hpending].
    intros [= <-]. by apply Hsnap.
Qed.

Lemma collection_stays_owned_witness :
  owned_by "u1" [server_row; tempMed aspirin entropy1 "u1"].
Proof.
  refine (proj2
    (collection_stays_owned "u1" aspirin entropy1 (Data server_row) []
       [Load (Some "u1") false;
        Completion (medicationsKey (Some "u1")) 0 (Data [])]
       fetched_client _ _ _) _ _).
  - discriminate.
  - intros l [= <-]. by repeat constructor.
  - repeat constructor.
  - reflexivity.
Defined.

(** ** The remote store client *)


(** ** [useAuth] *)

Lemma useAuth_run_app (evs1 evs2 : list useAuth.Event) (h : useAuth.Hook) :
  useAuth.run (evs1 ++ evs2) h = useAuth.run evs2 (useAuth.run evs1 h).
Proof. revert h. induction evs1 as [|ev evs1 IH]; intros h; [done | apply IH]. Qed.

(** While [useAuth] reports that it is loading, it is in its first state:
    it exposes no user. *)
Lemma useAuth_loading_is_initial (evs : list useAuth.Event) (h : useAuth.Hook) :
  (AuthState.loading (useAuth.state h) = true ->
   useAuth.state h = useAuth.state useAuth.mount) ->
  AuthState.loading (useAuth.state (useAuth.run evs h)) = true ->
  useAuth.state (useAuth.run evs h) = useAuth.state useAuth.mount.
Proof.
  revert h. induction evs as [|ev evs IH]; intros h Hh; [done|].
  cbn [useAuth.run]. apply IH.
  destruct ev as [session|name session|]; cbn; [done| |done].
  by destruct (useAuth.subscribed h).
Qed.

(** X10: the state that [useAuth] returns.  From the mount on and
    whatever arrives: while it reports loading it is still in its first
    state and exposes no user; once loading is over it never reports
    loading again; and the state is always the one set by the last
    session delivered, by the resolved [getSession] promise or by the
    listener while it is subscribed.  After the cleanup the listener
    changes nothing. *)
Theorem useAuth_follows_the_last_session (evs : list useAuth.Event) :
  let h := useAuth.run evs useAuth.mount in
  let shows session :=
    {| AuthState.user := Session.user <$> session; AuthState.loading := false |} in
  (AuthState.loading (useAuth.state h) = true ->
   AuthState.user (useAuth.state h) = None) /\
  (forall more,
      AuthState.loading (useAuth.state h) = false ->
      AuthState.loading (useAuth.state (useAuth.run more h)) = false) /\
  (forall session,
      useAuth.state (useAuth.run (evs ++ [useAuth.SessionResolved session])
                                 useAuth.mount) = shows session) /\
  (forall name session,
      useAuth.state (useAuth.run (evs ++ [useAuth.AuthStateChange name session])
                                 useAuth.mount) =
      if useAuth.subscribed h then shows session else useAuth.state h) /\
  (useAuth.subscribed h = false <-> In useAuth.Unmount evs).
Proof.
  intros h shows. split; [|split; [|split; [|split]]].
  - intros Hl.
    pose proof (useAuth_loading_is_initial evs useAuth.mount (fun _ => eq_refl) Hl)
      as Hs.
    fold h in Hs. by rewrite Hs.
  - intros more. generalize h. induction more as [|ev more IH]; intros h0 Hl; [done|].
    cbn [useAuth.run]. apply IH.
    destruct ev as [session|name session|]; cbn; [done| |done].
    by destruct (useAuth.subscribed h0).
  - intros session. by rewrite useAuth_run_app.
  - intros name session. rewrite useAuth_run_app. cbn. fold h.
    by destruct (useAuth.subscribed h).
  - unfold h.
    assert (Hgen : forall h0,
              useAuth.subscribed (useAuth.run evs h0) = false <->
              useAuth.subscribed h0 = false \/ In useAuth.Unmount evs).
    { induction evs as [|ev evs IH]; intros h0; cbn [useAuth.run In].
      - tauto.
      - rewrite IH. destruct ev as [session|name session|]; cbn.
        + intuition discriminate.
        + destruct (useAuth.subscribed h0) eqn:Hs; cbn; rewrite ?Hs;
            intuition discriminate.
        + intuition. }
    rewrite Hgen. cbn. intuition discriminate.
Qed.

(** ** The medication hooks under [useAuth] *)

(** X11: the guards of the two medication hooks agree in every state
    that [useAuth] can return.  The query tests the user identifier and
    the loading flag, the mutation the user identifier only; since
    [useAuth] exposes no user while it is loading, the query is enabled
    exactly when a non-empty user identifier is there, which is exactly
    when the mutation does not fail with the authentication error.  A
    disabled query reads as "not ready" and sends nothing; both hooks work
    on the key built from the same identifier. *)
Theorem hook_guards_agree (evs : list useAuth.Event) (newMed : NewMedication.t)
    (e : Entropy) (insert : Response Medication.t) (s1 s2 : M unit) (w : World) :
  let auth := useAuth.state (useAuth.run evs useAuth.mount) in
  let query := useGetMedications (currentUserId auth) (AuthState.loading auth) in
  let call := mutate (useAddMedication (currentUserId auth)) newMed e insert s1 s2 in
  QueryOptions.queryKey query = medicationsKey (currentUserId auth) /\
  (QueryOptions.enabled query = true <->
   exists user, AuthState.user auth = Some user /\ User.id user ≠ "") /\
  (QueryOptions.enabled query = false <->
   eval call w = Err (JsError "User not authenticated.")) /\
  (QueryOptions.enabled query = false -> load query w = (NotReady, w)).
Proof.
  intros auth query call.
  assert (Hinit : AuthState.loading auth = true -> AuthState.user auth = None).
  { intros Hl.
    pose proof (useAuth_loading_is_initial evs useAuth.mount (fun _ => eq_refl) Hl)
      as Hs.
    fold auth in Hs. by rewrite Hs. }
  assert (Hen : QueryOptions.enabled query = negb (falsy (currentUserId auth))).
  { unfold query. hooks. destruct (AuthState.loading auth).
    - unfold currentUserId. by rewrite Hinit.
    - by rewrite andb_true_r. }
  assert (Hcall : eval call w =
                  match truthy (currentUserId auth) with
                  | Some _ => outcome insert
                  | None => Err (JsError "User not authenticated.")
                  end).
  { unfold call. rewrite eval_mutate. unfold mutationFn.
    destruct (truthy (currentUserId auth)); [by destruct insert | done]. }
  split; [done|].
  split; [|split; [|apply load_disabled]].
  - rewrite Hen. unfold currentUserId, falsy.
    destruct (AuthState.user auth) as [[id]|]; cbn.
    + destruct (decide (id = "")) as [->|Hid]; cbn.
      * split; [done|]. by intros (user & [= <-] & Hne).
      * split; [|done]. intros _. by exists (User.mk id).
    + split; [done|]. by intros (user & ? & _).
  - rewrite Hen, Hcall. unfold truthy.
    destruct (falsy (currentUserId auth)); cbn; [done|].
    split; [done|]. destruct (currentUserId auth); [|done].
    destruct insert; discriminate.
Qed.

(** ** [AuthForm] *)

Lemma AuthForm_submit_guards (s : AuthForm.State) :
  let valid := AuthForm.email s ≠ "" /\ AuthForm.password s ≠ "" /\
               (AuthForm.isLoginMode s = true \/ (6 <= String.length (AuthForm.password s))%nat) in
  (falsy (Some (AuthForm.email s)) || falsy (Some (AuthForm.password s)) = true /\ ~ valid) \/
  (falsy (Some (AuthForm.email s)) || falsy (Some (AuthForm.password s)) = false /\
   bool_decide (String.length (AuthForm.password s) < 6)%nat && negb (AuthForm.isLoginMode s) = true /\
   ~ valid) \/
  (falsy (Some (AuthForm.email s)) || falsy (Some (AuthForm.password s)) = false /\
   bool_decide (String.length (AuthForm.password s) < 6)%nat && negb (AuthForm.isLoginMode s) = false /\
   valid).
Proof.
  intros valid. unfold valid, falsy.
  destruct (decide (AuthForm.email s = "")) as [He|He]; cbn; [left; tauto|].
  destruct (decide (AuthForm.password s = "")) as [Hp|Hp]; cbn; [left; tauto|].
  right. destruct (AuthForm.isLoginMode s); cbn.
  - right. rewrite andb_false_r. tauto.
  - rewrite andb_true_r.
    destruct (bool_decide (String.length (AuthForm.password s) < 6)%nat) eqn:Hshort;
      [apply bool_decide_eq_true in Hshort | apply bool_decide_eq_false in Hshort].
    + left. repeat split; try done. intros (_ & _ & [?|?]); [done | lia].
    + right. repeat split; try done. right. lia.
Qed.

(** X12: one submit of the form.  Whatever is typed and whatever the
    identity provider answers, the submit ends with [authLoading] false
    and leaves the typed fields and the mode as they are.  The identity
    provider is called at most once, with the typed email and password and
    by the function of the current mode, and it is called exactly when
    email and password are not empty and, in sign-up mode only, the
    password has at least 6 characters: a login with a shorter password is
    sent.  When no call is made an error message is shown and
    [onAuthSuccess] is not called. *)
Theorem submit_gates_the_call (s : AuthForm.State) (answer : AuthForm.Answer)
    (onAuthSuccess : AuthForm.Callback) :
  let o := AuthForm.handleAuthSubmit s answer onAuthSuccess in
  let call := if AuthForm.isLoginMode s
              then AuthForm.signInWithPassword (AuthForm.email s) (AuthForm.password s)
              else AuthForm.signUp (AuthForm.email s) (AuthForm.password s) in
  let valid := AuthForm.email s ≠ "" /\ AuthForm.password s ≠ "" /\
               (AuthForm.isLoginMode s = true \/
                (6 <= String.length (AuthForm.password s))%nat) in
  AuthForm.authLoading (AuthForm.state o) = false /\
  AuthForm.email (AuthForm.state o) = AuthForm.email s /\
  AuthForm.password (AuthForm.state o) = AuthForm.password s /\
  AuthForm.isLoginMode (AuthForm.state o) = AuthForm.isLoginMode s /\
  (valid -> AuthForm.calls o = [call]) /\
  (~ valid ->
   AuthForm.calls o = [] /\ AuthForm.notified o = false /\
   is_Some (AuthForm.authError (AuthForm.state o))).
Proof.
  intros o call valid.
  destruct (AuthForm_submit_guards s) as [(Hg1 & Hinvalid)|[(Hg1 & Hg2 & Hinvalid)|(Hg1 & Hg2 & Hvalid)]];
    fold valid in Hinvalid || fold valid in Hvalid;
    unfold o, AuthForm.handleAuthSubmit; cbn [AuthForm.email AuthForm.password
      AuthForm.isLoginMode AuthForm.setAuthError AuthForm.setAuthLoading];
    rewrite Hg1, ?Hg2.
  - cbn. repeat split; try done; by eexists.
  - cbn. repeat split; try done; by eexists.
  - fold call.
    destruct answer as [[message|] [user|]|message];
      destruct (AuthForm.isLoginMode s) eqn:Hmode, onAuthSuccess; cbn;
      by repeat split.
Qed.

(** X13: what a submit that reaches the identity provider leaves behind.
    [onAuthSuccess] is called exactly when the prop is given and the
    provider answered without error, in sign-up mode with a user.  No
    error message is left exactly when the provider answered so and the
    callback, if any, did not throw.  Otherwise the message left is the
    provider's own message when it answered with an error, the
    confirmation notice when a sign-up is answered without error and
    without user, and the "unexpected error" text followed by the thrown
    message when the call or the callback threw. *)
Theorem submit_outcomes (s : AuthForm.State) (answer : AuthForm.Answer)
    (onAuthSuccess : AuthForm.Callback) :
  AuthForm.email s ≠ "" ->
  AuthForm.password s ≠ "" ->
  AuthForm.isLoginMode s = true \/ (6 <= String.length (AuthForm.password s))%nat ->
  let o := AuthForm.handleAuthSubmit s answer onAuthSuccess in
  let accepted :=
    exists user, answer = AuthForm.Answered None user /\
                 (AuthForm.isLoginMode s = true \/ is_Some user) in
  (AuthForm.notified o = true <->
   onAuthSuccess ≠ AuthForm.NoCallback /\ accepted) /\
  (AuthForm.authError (AuthForm.state o) = None <->
   (forall message, onAuthSuccess ≠ AuthForm.Throws message) /\ accepted) /\
  (forall message user,
      answer = AuthForm.Answered (Some message) user ->
      AuthForm.authError (AuthForm.state o) = Some message) /\
  (forall message,
      answer = AuthForm.Rejected message ->
      AuthForm.authError (AuthForm.state o) =
      Some ("An unexpected error occurred: " +:+ message)) /\
  (forall message,
      accepted -> onAuthSuccess = AuthForm.Throws message ->
      AuthForm.authError (AuthForm.state o) =
      Some ("An unexpected error occurred: " +:+ message)) /\
  (AuthForm.isLoginMode s = false ->
   answer = AuthForm.Answered None None ->
   AuthForm.authError (AuthForm.state o) =
   Some "Please check your email to confirm your account before logging in.").
Proof.
  intros Hemail Hpassword Hlen o accepted.
  destruct (AuthForm_submit_guards s)
    as [(_ & Hinvalid)|[(_ & _ & Hinvalid)|(Hg1 & Hg2 & _)]];
    [exfalso; apply Hinvalid; by repeat split..|].
  unfold o, accepted, AuthForm.handleAuthSubmit.
  cbn [AuthForm.email AuthForm.password AuthForm.isLoginMode
       AuthForm.setAuthError AuthForm.setAuthLoading].
  rewrite Hg1, Hg2. clear Hg1 Hg2 Hlen o accepted.
  destruct answer as [[message|] [user|]|message];
    destruct (AuthForm.isLoginMode s) eqn:Hmode, onAuthSuccess; cbn;
    repeat split; try done;
    try (intros; simplify_eq; done);
    try (intros [_ (user' & ? & ?)]; by simplify_eq);
    try (intros [Hcb _]; exfalso; by eapply Hcb);
    try (intros [_ (user' & [= <-] & [?|[? ?]])]; done);
    try (intros (user' & [= <-] & [?|[? ?]]); done);
    try (by (eexists; split; [done | (by left) || (by right)]));
    try (intros ? (user' & ? & ?) ?; by simplify_eq);
    try (intros ? (user' & [= <-] & [?|[? ?]]) ?; done).
Qed.

Lemma submit_outcomes_witness :
  AuthForm.notified
    (AuthForm.handleAuthSubmit login_form
       (AuthForm.Answered None (Some (User.mk "u1"))) AuthForm.Returns) = true.
Proof.
  refine (proj2 (proj1
    (submit_outcomes login_form (AuthForm.Answered None (Some (User.mk "u1")))
       AuthForm.Returns _ _ _)) _).
  - discriminate.
  - discriminate.
  - by left.
  - split; [discriminate|]. eexists. split; [reflexivity | by left].
Defined.

(** X14: what [AuthForm] shows for the states that [useAuth] can return.
    At mount it shows the loading screen and does not navigate.  After
    every delivered session it never shows the loading screen again: with
    a user it renders nothing and navigates to the role selection, without
    a user it shows the form and does not navigate.  In every state the
    form and the redirect exclude each other. *)
Theorem form_or_redirect (evs : list useAuth.Event) :
  let auth := useAuth.state (useAuth.run evs useAuth.mount) in
  AuthForm.render (useAuth.state useAuth.mount) = AuthForm.LoadingScreen /\
  AuthForm.redirect (useAuth.state useAuth.mount) = None /\
  (AuthForm.render auth = AuthForm.LoadingScreen <-> AuthState.loading auth = true) /\
  (AuthForm.redirect auth = Some "/onboarding-role-select" <->
   is_Some (AuthState.user auth)) /\
  (is_Some (AuthForm.redirect auth) <-> AuthForm.render auth = AuthForm.Nothing) /\
  (AuthForm.render auth = AuthForm.Form <->
   AuthState.loading auth = false /\ AuthState.user auth = None) /\
  (forall session,
      let auth' := useAuth.state
                     (useAuth.run (evs ++ [useAuth.SessionResolved session])
                                  useAuth.mount) in
      AuthForm.render auth' = (if session is Some _ then AuthForm.Nothing
                               else AuthForm.Form) /\
      AuthForm.redirect auth' = (if session is Some _
                                 then Some "/onboarding-role-select" else None)).
Proof.
  intros auth.
  assert (Hinit : AuthState.loading auth = true -> AuthState.user auth = None).
  { intros Hl.
    pose proof (useAuth_loading_is_initial evs useAuth.mount (fun _ => eq_refl) Hl)
      as Hs.
    fold auth in Hs. by rewrite Hs. }
  split; [done|]. split; [done|].
  unfold AuthForm.render, AuthForm.redirect.
  destruct auth as [[user|] [|]]; cbn in *;
    (split; [|split; [|split; [|split]]]);
    try (split; (done || (intros [? ?]; done) || (intros; by eexists)
                 || (by intros [? ?]) || (by intros [? [=]])));
    try (specialize (Hinit eq_refl); done).
  all: intros session; rewrite useAuth_run_app; by destruct session.
Qed.

(** ** Convergence *)

Lemma lookup_mutations (u : string)
    (m : NewMedication.t * Entropy * Response Medication.t)
    (ms : list (NewMedication.t * Entropy * Response Medication.t)) (w : World) :
  u ≠ "" ->
  exists q,
    cache (exec (mutations (Some u) (m :: ms)) w) !! medicationsKey (Some u) = Some q /\
    q_isInvalidated q = true /\ q_fetch q = None.
Proof.
  intros Hu. revert m w. induction ms as [|m' ms IH]; intros [[newMed e] insert] w.
  - cbn [mutations]. rewrite exec_bind, exec_ret.
    pose proof (lookup_mutate u newMed e insert w Hu) as Hq. cbv zeta in Hq.
    eexists. split; [exact Hq | done].
  - change (exec (mutations (Some u) ((newMed, e, insert) :: m' :: ms)) w)
      with (exec (mutations (Some u) (m' :: ms))
              (exec (mutate (useAddMedication (Some u)) newMed e insert
                       (mret tt) (mret tt)) w)).
    apply IH.
Qed.

(** X15: one refetch replaces whatever the mutations left.  After one or
    more settled mutations of a resolved user, from any state of the
    cache, the next read of that user sends exactly one select; when it is
    answered, the cached collection is the server's rows and nothing else,
    no placeholder is left, and the collection is fresh again: a further
    read changes nothing. *)
Theorem refetch_replaces_all_placeholders (u : string)
    (m : NewMedication.t * Entropy * Response Medication.t)
    (ms : list (NewMedication.t * Entropy * Response Medication.t))
    (dt : N) (rows : list Medication.t) (w : World) :
  u ≠ "" ->
  let k := medicationsKey (Some u) in
  let read := load (useGetMedications (Some u) false) in
  let settled := exec (mutations (Some u) (m :: ms)) w in
  let reading := exec (tick dt;; read) settled in
  let refetched := exec (fetchCompleted k (fetchSeq settled) (Data rows)) reading in
  selects (trace reading) = S (selects (trace settled)) /\
  dataOf k refetched = Some rows /\
  read refetched = (Fresh, refetched).
Proof.
  intros Hu k read settled reading refetched.
  destruct (lookup_mutations u m ms w Hu) as (q & Hq & Hi & Hf).
  fold k settled in Hq.
  assert (Hreading : reading =
            exec (startFetch (useGetMedications (Some u) false))
                 (exec (tick dt) settled)).
  { pose proof (load_refetches u q (exec (tick dt) settled) Hu Hq Hf
                  (isStale_invalidated q _ Hi)) as Hl.
    unfold reading, read. rewrite exec_bind. unfold exec at 1. by rewrite Hl. }
  rewrite exec_startFetch in Hreading by done.
  change (cache (exec (tick dt) settled)) with (cache settled) in Hreading.
  change (fetchSeq (exec (tick dt) settled)) with (fetchSeq settled) in Hreading.
  change (trace (exec (tick dt) settled)) with (trace settled) in Hreading.
  change (now (exec (tick dt) settled)) with (now settled + Z.of_N dt) in Hreading.
  fold k in Hreading. rewrite Hq in Hreading.
  assert (Hrefetched : refetched =
    {| cache := <[k := {| q_data := Some rows;
                          q_dataUpdatedAt := now settled + Z.of_N dt;
                          q_isInvalidated := false; q_fetch := None |}]>
                  (cache reading);
       fetchSeq := fetchSeq reading;
       now := now settled + Z.of_N dt;
       trace := trace reading ++ [FetchCompleted k (fetchSeq settled) true] |}).
  { unfold refetched.
    erewrite fetchCompleted_applies;
      [|rewrite Hreading; cbn [cache]; apply lookup_insert_eq | reflexivity].
    by rewrite Hreading. }
  split; [rewrite Hreading; cbn [trace]; rewrite selects_app; cbn [selects];
          by rewrite Nat.add_1_r|].
  split; [rewrite Hrefetched; unfold dataOf; cbn [cache];
          by rewrite lookup_insert_eq|].
  rewrite Hrefetched.
  eapply (load_fresh u); [done| | |].
  - cbn [cache]. apply lookup_insert_eq.
  - reflexivity.
  - unfold isStale. cbn. apply bool_decide_eq_false. unfold staleTime. lia.
Qed.

Lemma refetch_replaces_all_placeholders_witness :
  dataOf (medicationsKey (Some "u1"))
    (exec (fetchCompleted (medicationsKey (Some "u1"))
             (fetchSeq (exec (mutations (Some "u1")
                                [(aspirin, entropy1, Failure "insert rejected")])
                             fresh_client))
             (Data [server_row]))
          (exec (tick 10%N;; load (useGetMedications (Some "u1") false))
                (exec (mutations (Some "u1")
                         [(aspirin, entropy1, Failure "insert rejected")])
                      fresh_client)))
  = Some [server_row].
Proof.
  refine (proj1 (proj2
    (refetch_replaces_all_placeholders "u1"
       (aspirin, entropy1, Failure "insert rejected") [] 10%N [server_row]
       fresh_client _))).
  discriminate.
Defined.
